(** * DolbyIO Unreal plugin: participant / video-track event ordering

    Shallow embedding of the event handlers of [UDolbyIOSubsystem]
    (DolbyIOInitialization.cpp and the [Handle] overloads that follow it in
    the sources), of the material binding functions, and of the connection
    guards of [Dolby::FSdkAccess].

    Unreal containers are modelled by their documented behaviour:
    - [TMap<FString, V>] is a [gmap string V]; [Emplace] replaces the value of
      an existing key, [Find] is [!!], [Remove] is [delete], [FindOrAdd]
      default-constructs a missing value, and [operator[]] is [FindChecked]:
      it asserts that the key is present;
    - [TArray<T>] is a [list T]; [Add] appends at the end, [RemoveAt] is
      [delete i];
    - [FString] equality ignores case, in [==] and [!=] and in the keys of
      a [TMap] alike: a [string] stands for an [FString] up to case.
    Handlers run one at a time: the SDK callback threads and the scope lock
    are not modelled. *)

From stdpp Require Import base option list gmap strings.

Set Default Proof Using "Type".

(** ** Engine-side data *)

Record FDolbyIOVideoTrack := MkVideoTrack {
  TrackID : string;
  ParticipantID : string
}.

#[global] Instance FDolbyIOVideoTrack_eq_dec : EqDecision FDolbyIOVideoTrack.
Proof. solve_decision. Defined.

Inductive EDolbyIOParticipantStatus :=
  | Reserved | Connecting | OnAir | Decline | Inactive | Left | Warning | Error.

#[global] Instance EDolbyIOParticipantStatus_eq_dec :
  EqDecision EDolbyIOParticipantStatus.
Proof. solve_decision. Defined.

Record FDolbyIOParticipantInfo := MkParticipantInfo {
  UserID : string;
  Name : string;
  ExternalID : string;
  Status : EDolbyIOParticipantStatus
}.

#[global] Instance FDolbyIOParticipantInfo_eq_dec :
  EqDecision FDolbyIOParticipantInfo.
Proof. solve_decision. Defined.

(** [dolbyio::comms::participant_info] as the handlers read it: the status
    is optional, and a participant event without one is dropped. *)
Record participant_info := MkSdkParticipant {
  user_id : string;
  info_name : string;
  info_external_id : string;
  status : option EDolbyIOParticipantStatus
}.

(** [ToFDolbyIOParticipantInfo]; the handlers only call it once the status
    is known to be present. *)
Definition ToFDolbyIOParticipantInfo (p : participant_info)
    : FDolbyIOParticipantInfo :=
  {| UserID := user_id p;
     Name := info_name p;
     ExternalID := info_external_id p;
     Status := default Inactive (status p) |}.

(** The multicast delegates of the subsystem; [BroadcastEvent] is
    fire-and-forget, so a run of the handlers is observed as the list of
    notifications it broadcast, oldest first. *)
Inductive Notification :=
  | OnParticipantAdded (st : EDolbyIOParticipantStatus) (i : FDolbyIOParticipantInfo)
  | OnParticipantUpdated (st : EDolbyIOParticipantStatus) (i : FDolbyIOParticipantInfo)
  | OnVideoTrackAdded (t : FDolbyIOVideoTrack)
  | OnVideoTrackRemoved (t : FDolbyIOVideoTrack)
  | OnVideoTrackEnabled (t : FDolbyIOVideoTrack)
  | OnVideoTrackDisabled (t : FDolbyIOVideoTrack).

#[global] Instance Notification_eq_dec : EqDecision Notification.
Proof. solve_decision. Defined.

(** The tracks announced by the "track added" notifications of a log. *)
Definition added_of (log : list Notification) : list FDolbyIOVideoTrack :=
  omap (λ n, match n with OnVideoTrackAdded t => Some t | _ => None end) log.

(** ** Video sinks *)

(** A [UMaterialInstanceDynamic*] is an opaque engine pointer. *)
Definition Material := nat.

(** A [UTexture2D*]; the only thing the subsystem does with it is to test
    it against [nullptr]. *)
Inductive UTexture2D := TextureOf (VideoTrackID : string).

#[global] Instance UTexture2D_eq_dec : EqDecision UTexture2D.
Proof. solve_decision. Defined.

(** Modelled from the spec: the class [DolbyIO::FVideoSink]
    (Video/DolbyIOVideoSink.h) is not among the sources. A sink owns the
    renderable surface of one track ("the renderable destination (e.g.,
    texture) a track's decoded frames are written into"), which does not
    exist when the sink is constructed, and the set of materials that
    currently show it. *)
Record FVideoSink := MkVideoSink {
  VideoTrackID : string;
  Texture : option UTexture2D;
  Materials : gset Material
}.

#[global] Instance FVideoSink_eq_dec : EqDecision FVideoSink.
Proof. solve_decision. Defined.

(** [std::make_shared<FVideoSink>(VideoTrackID)] *)
Definition FVideoSink_new (tid : string) : FVideoSink :=
  {| VideoTrackID := tid; Texture := None; Materials := ∅ |}.

Definition FVideoSink_GetTexture (sink : FVideoSink) : option UTexture2D :=
  Texture sink.

Definition FVideoSink_BindMaterial (m : Material) (sink : FVideoSink) : FVideoSink :=
  {| VideoTrackID := VideoTrackID sink;
     Texture := Texture sink;
     Materials := {[ m ]} ∪ Materials sink |}.

Definition FVideoSink_UnbindMaterial (m : Material) (sink : FVideoSink) : FVideoSink :=
  {| VideoTrackID := VideoTrackID sink;
     Texture := Texture sink;
     Materials := Materials sink ∖ {[ m ]} |}.

Definition FVideoSink_UnbindAllMaterials (sink : FVideoSink) : FVideoSink :=
  {| VideoTrackID := VideoTrackID sink;
     Texture := Texture sink;
     Materials := ∅ |}.

(** The sink once its surface exists. *)
Definition FVideoSink_CreateTexture (sink : FVideoSink) : FVideoSink :=
  {| VideoTrackID := VideoTrackID sink;
     Texture := Some (TextureOf (VideoTrackID sink));
     Materials := Materials sink |}.

(** ** Handlers as state transformers

    A handler reads and writes the subsystem, broadcasts notifications and
    may hit a failed [check] ([None]). *)
Definition Op (St A : Type) : Type := St → option (A * St * list Notification).

#[global] Instance Op_ret {St} : MRet (Op St) := λ A a s, Some (a, s, []).

#[global] Instance Op_bind {St} : MBind (Op St) := λ A B k m s,
  match m s with
  | Some (a, s1, l1) =>
      match k a s1 with
      | Some (b, s2, l2) => Some (b, s2, l1 ++ l2)
      | None => None
      end
  | None => None
  end.

Definition op_get {St} : Op St St := λ s, Some (s, s, []).
Definition op_modify {St} (f : St → St) : Op St unit := λ s, Some (tt, f s, []).
Definition op_check_fail {St A} : Op St A := λ _, None.

(** [BroadcastEvent(Event, Args...)] *)
Definition BroadcastEvent {St} (n : Notification) : Op St unit :=
  λ s, Some (tt, s, [n]).

(** A range-based [for] over an array. *)
Fixpoint for_each {St A} (l : list A) (body : A → Op St unit) : Op St unit :=
  match l with
  | [] => mret tt
  | x :: l' => body x ;; for_each l' body
  end.

(** What an observer sees of a handler run: the notifications, if the
    handler ran to completion. *)
Definition log_of {St A} (r : option (A * St * list Notification))
    : option (list Notification) :=
  (λ x, x.2) <$> r.

Definition state_of {St A} (r : option (A * St * list Notification)) : option St :=
  (λ x, x.1.2) <$> r.

(** ** The handlers registered by [UDolbyIOSubsystem::Initialize(Token)]

    DolbyIOInitialization.cpp registers one lambda per SDK event; each is
    transcribed under the name of the event it handles. *)
Module Inline.

Record UDolbyIOSubsystem := MkSubsystem {
  RemoteParticipants : gmap string FDolbyIOParticipantInfo;
  BufferedVideoTracks : gmap string (list FDolbyIOVideoTrack);
  VideoSinks : gmap string FVideoSink
}.

Definition set_RemoteParticipants
    (f : gmap string FDolbyIOParticipantInfo → gmap string FDolbyIOParticipantInfo)
    (s : UDolbyIOSubsystem) : UDolbyIOSubsystem :=
  {| RemoteParticipants := f (RemoteParticipants s);
     BufferedVideoTracks := BufferedVideoTracks s;
     VideoSinks := VideoSinks s |}.

Definition set_BufferedVideoTracks
    (f : gmap string (list FDolbyIOVideoTrack) → gmap string (list FDolbyIOVideoTrack))
    (s : UDolbyIOSubsystem) : UDolbyIOSubsystem :=
  {| RemoteParticipants := RemoteParticipants s;
     BufferedVideoTracks := f (BufferedVideoTracks s);
     VideoSinks := VideoSinks s |}.

Definition set_VideoSinks
    (f : gmap string FVideoSink → gmap string FVideoSink)
    (s : UDolbyIOSubsystem) : UDolbyIOSubsystem :=
  {| RemoteParticipants := RemoteParticipants s;
     BufferedVideoTracks := BufferedVideoTracks s;
     VideoSinks := f (VideoSinks s) |}.

(** [VideoSinks[TrackID]->UnbindAllMaterials()]: the checked lookup. *)
Definition VideoSinks_UnbindAllMaterials (tid : string) : Op UDolbyIOSubsystem unit :=
  s ← op_get;
  match VideoSinks s !! tid with
  | Some sink =>
      op_modify (set_VideoSinks <[tid := FVideoSink_UnbindAllMaterials sink]>)
  | None => op_check_fail
  end.

(** [[this](const remote_participant_added& Event)] *)
Definition remote_participant_added (participant : participant_info)
    : Op UDolbyIOSubsystem unit :=
  match status participant with
  | None => mret tt
  | Some _ =>
      let Info := ToFDolbyIOParticipantInfo participant in
      op_modify (set_RemoteParticipants <[UserID Info := Info]>);;
      BroadcastEvent (OnParticipantAdded (Status Info) Info);;
      s ← op_get;
      match BufferedVideoTracks s !! UserID Info with
      | Some ParticipantTracks =>
          for_each ParticipantTracks
            (λ VideoTrack, BroadcastEvent (OnVideoTrackAdded VideoTrack));;
          op_modify (set_BufferedVideoTracks (delete (UserID Info)))
      | None => mret tt
      end
  end.

(** [[this](const remote_participant_updated& Event)] *)
Definition remote_participant_updated (participant : participant_info)
    : Op UDolbyIOSubsystem unit :=
  match status participant with
  | None => mret tt
  | Some _ =>
      let Info := ToFDolbyIOParticipantInfo participant in
      op_modify (set_RemoteParticipants <[UserID Info := Info]>);;
      BroadcastEvent (OnParticipantUpdated (Status Info) Info)
  end.

(** [[this](const remote_video_track_added& Event)]; the call of
    [set_video_sink] goes to the SDK and leaves the subsystem alone. *)
Definition remote_video_track_added (VideoTrack : FDolbyIOVideoTrack)
    : Op UDolbyIOSubsystem unit :=
  op_modify (set_VideoSinks
               <[TrackID VideoTrack := FVideoSink_new (TrackID VideoTrack)]>);;
  s ← op_get;
  if decide (is_Some (RemoteParticipants s !! ParticipantID VideoTrack)) then
    BroadcastEvent (OnVideoTrackAdded VideoTrack)
  else
    op_modify (set_BufferedVideoTracks (λ m,
      <[ParticipantID VideoTrack :=
          default [] (m !! ParticipantID VideoTrack) ++ [VideoTrack]]> m)).

(** [[this](const remote_video_track_removed& Event)] *)
Definition remote_video_track_removed (VideoTrack : FDolbyIOVideoTrack)
    : Op UDolbyIOSubsystem unit :=
  VideoSinks_UnbindAllMaterials (TrackID VideoTrack);;
  op_modify (set_VideoSinks (delete (TrackID VideoTrack)));;
  BroadcastEvent (OnVideoTrackRemoved VideoTrack).

(** [[this](const vfs_event& Event)] *)
Definition vfs_event (new_enabled new_disabled : list FDolbyIOVideoTrack)
    : Op UDolbyIOSubsystem unit :=
  for_each new_enabled
    (λ VideoTrack, BroadcastEvent (OnVideoTrackEnabled VideoTrack));;
  for_each new_disabled
    (λ VideoTrack, BroadcastEvent (OnVideoTrackDisabled VideoTrack)).

(** The SDK events the subsystem subscribes to. *)
Inductive Event :=
  | participant_added_ev (p : participant_info)
  | participant_updated_ev (p : participant_info)
  | video_track_added_ev (t : FDolbyIOVideoTrack)
  | video_track_removed_ev (t : FDolbyIOVideoTrack)
  | vfs_ev (new_enabled new_disabled : list FDolbyIOVideoTrack).

Definition dispatch (e : Event) : Op UDolbyIOSubsystem unit :=
  match e with
  | participant_added_ev p => remote_participant_added p
  | participant_updated_ev p => remote_participant_updated p
  | video_track_added_ev t => remote_video_track_added t
  | video_track_removed_ev t => remote_video_track_removed t
  | vfs_ev en dis => vfs_event en dis
  end.

(** The events of a session, delivered one after the other. *)
Definition run (evs : list Event) : Op UDolbyIOSubsystem unit :=
  for_each evs dispatch.

(** The subsystem before any remote event: no participant, nothing
    buffered. *)
Definition fresh (sinks : gmap string FVideoSink) : UDolbyIOSubsystem :=
  {| RemoteParticipants := ∅; BufferedVideoTracks := ∅; VideoSinks := sinks |}.

End Inline.

(** ** The [Handle] overloads and the material functions

    The overloads of [UDolbyIOSubsystem::Handle], with
    [ProcessBufferedVideoTracks] and the texture and material accessors. *)
Module Video.

Record UDolbyIOSubsystem := MkSubsystem {
  RemoteParticipants : gmap string FDolbyIOParticipantInfo;
  VideoSinks : gmap string FVideoSink;
  BufferedAddedVideoTracks : gmap string (list FDolbyIOVideoTrack);
  BufferedEnabledVideoTracks : gmap string (list FDolbyIOVideoTrack)
}.

Definition set_RemoteParticipants
    (f : gmap string FDolbyIOParticipantInfo → gmap string FDolbyIOParticipantInfo)
    (s : UDolbyIOSubsystem) : UDolbyIOSubsystem :=
  {| RemoteParticipants := f (RemoteParticipants s);
     VideoSinks := VideoSinks s;
     BufferedAddedVideoTracks := BufferedAddedVideoTracks s;
     BufferedEnabledVideoTracks := BufferedEnabledVideoTracks s |}.

Definition set_VideoSinks
    (f : gmap string FVideoSink → gmap string FVideoSink)
    (s : UDolbyIOSubsystem) : UDolbyIOSubsystem :=
  {| RemoteParticipants := RemoteParticipants s;
     VideoSinks := f (VideoSinks s);
     BufferedAddedVideoTracks := BufferedAddedVideoTracks s;
     BufferedEnabledVideoTracks := BufferedEnabledVideoTracks s |}.

Definition set_BufferedAddedVideoTracks
    (f : gmap string (list FDolbyIOVideoTrack) → gmap string (list FDolbyIOVideoTrack))
    (s : UDolbyIOSubsystem) : UDolbyIOSubsystem :=
  {| RemoteParticipants := RemoteParticipants s;
     VideoSinks := VideoSinks s;
     BufferedAddedVideoTracks := f (BufferedAddedVideoTracks s);
     BufferedEnabledVideoTracks := BufferedEnabledVideoTracks s |}.

Definition set_BufferedEnabledVideoTracks
    (f : gmap string (list FDolbyIOVideoTrack) → gmap string (list FDolbyIOVideoTrack))
    (s : UDolbyIOSubsystem) : UDolbyIOSubsystem :=
  {| RemoteParticipants := RemoteParticipants s;
     VideoSinks := VideoSinks s;
     BufferedAddedVideoTracks := BufferedAddedVideoTracks s;
     BufferedEnabledVideoTracks := f (BufferedEnabledVideoTracks s) |}.

(** [TMap::FindOrAdd(Key).Add(Item)] *)
Definition FindOrAdd_Add (Key : string) (Item : FDolbyIOVideoTrack)
    (m : gmap string (list FDolbyIOVideoTrack)) : gmap string (list FDolbyIOVideoTrack) :=
  <[Key := default [] (m !! Key) ++ [Item]]> m.

(** *** Materials and textures *)

Definition BindMaterial (Material : Material) (VideoTrackID : string)
    (s : UDolbyIOSubsystem) : UDolbyIOSubsystem :=
  let s1 :=
    set_VideoSinks
      (map_imap (λ Key Value,
         Some (if decide (Key ≠ VideoTrackID)
               then FVideoSink_UnbindMaterial Material Value
               else Value))) s in
  match VideoSinks s1 !! VideoTrackID with
  | Some Sink =>
      set_VideoSinks <[VideoTrackID := FVideoSink_BindMaterial Material Sink]> s1
  | None => s1
  end.

Definition UnbindMaterial (Material : Material) (VideoTrackID : string)
    (s : UDolbyIOSubsystem) : UDolbyIOSubsystem :=
  match VideoSinks s !! VideoTrackID with
  | Some Sink =>
      set_VideoSinks <[VideoTrackID := FVideoSink_UnbindMaterial Material Sink]> s
  | None => s
  end.

Definition GetTexture (VideoTrackID : string) (s : UDolbyIOSubsystem)
    : option UTexture2D :=
  match VideoSinks s !! VideoTrackID with
  | Some Sink => FVideoSink_GetTexture Sink
  | None => None
  end.

(** *** Track events *)

Definition BroadcastVideoTrackAdded (VideoTrack : FDolbyIOVideoTrack)
    : Op UDolbyIOSubsystem unit :=
  BroadcastEvent (OnVideoTrackAdded VideoTrack).

Definition BroadcastVideoTrackEnabled (VideoTrack : FDolbyIOVideoTrack)
    : Op UDolbyIOSubsystem unit :=
  BroadcastEvent (OnVideoTrackEnabled VideoTrack).

(** Modelled from the spec: [FVideoSink::OnTextureCreated] is not among the
    sources. The spec has the reconciler "emit track added immediately
    (subject to surface-ready gating)" when the participant is known, and
    has the drain emit "track added for each" buffered track: the sink
    brings its surface into existence and then runs the callback it was
    given. [VideoSinks[TrackID]] is the caller's checked lookup. *)
Definition VideoSinks_OnTextureCreated (TrackID : string)
    (OnTextureCreated : Op UDolbyIOSubsystem unit) : Op UDolbyIOSubsystem unit :=
  s ← op_get;
  match VideoSinks s !! TrackID with
  | Some sink =>
      op_modify (set_VideoSinks <[TrackID := FVideoSink_CreateTexture sink]>);;
      OnTextureCreated
  | None => op_check_fail
  end.

(** The lambda that [ProcessBufferedVideoTracks] hands to the sink of
    [AddedTrack]: the loop over [EnabledTracksRef] stops at the first entry
    with the track's ID. *)
Definition AddedTrack_callback (ParticipantID : string)
    (AddedTrack : FDolbyIOVideoTrack) : Op UDolbyIOSubsystem unit :=
  BroadcastVideoTrackAdded AddedTrack;;
  s ← op_get;
  match BufferedEnabledVideoTracks s !! ParticipantID with
  | Some EnabledTracksRef =>
      match list_find (λ e, TrackID e = TrackID AddedTrack) EnabledTracksRef with
      | Some (i, EnabledTrack) =>
          BroadcastVideoTrackEnabled EnabledTrack;;
          match delete i EnabledTracksRef with
          | [] => op_modify (set_BufferedEnabledVideoTracks (delete ParticipantID))
          | rest => op_modify (set_BufferedEnabledVideoTracks <[ParticipantID := rest]>)
          end
      | None => mret tt
      end
  | None => mret tt
  end.

Definition ProcessBufferedVideoTracks (ParticipantID : string)
    : Op UDolbyIOSubsystem unit :=
  s ← op_get;
  match BufferedAddedVideoTracks s !! ParticipantID with
  | Some AddedTracks =>
      for_each AddedTracks
        (λ AddedTrack,
           VideoSinks_OnTextureCreated (TrackID AddedTrack)
             (AddedTrack_callback ParticipantID AddedTrack));;
      op_modify (set_BufferedAddedVideoTracks (delete ParticipantID))
  | None => mret tt
  end.

(** [Handle(const remote_video_track_added&)]; [set_video_sink] is a call
    into the SDK on the sink that was just stored. *)
Definition Handle_remote_video_track_added (VideoTrack : FDolbyIOVideoTrack)
    : Op UDolbyIOSubsystem unit :=
  op_modify (set_VideoSinks
               <[TrackID VideoTrack := FVideoSink_new (TrackID VideoTrack)]>);;
  s ← op_get;
  if decide (is_Some (RemoteParticipants s !! ParticipantID VideoTrack)) then
    VideoSinks_OnTextureCreated (TrackID VideoTrack)
      (BroadcastVideoTrackAdded VideoTrack)
  else
    op_modify (set_BufferedAddedVideoTracks
                 (FindOrAdd_Add (ParticipantID VideoTrack) VideoTrack)).

(** [VideoSinks[TrackID]->UnbindAllMaterials()]: the checked lookup. *)
Definition VideoSinks_UnbindAllMaterials (tid : string) : Op UDolbyIOSubsystem unit :=
  s ← op_get;
  match VideoSinks s !! tid with
  | Some sink =>
      op_modify (set_VideoSinks <[tid := FVideoSink_UnbindAllMaterials sink]>)
  | None => op_check_fail
  end.

(** [Handle(const remote_video_track_removed&)] *)
Definition Handle_remote_video_track_removed (VideoTrack : FDolbyIOVideoTrack)
    : Op UDolbyIOSubsystem unit :=
  VideoSinks_UnbindAllMaterials (TrackID VideoTrack);;
  op_modify (set_VideoSinks (delete (TrackID VideoTrack)));;
  BroadcastEvent (OnVideoTrackRemoved VideoTrack).

(** One turn of the first loop of [Handle(const utils::vfs_event&)]. *)
Definition Handle_new_enabled (VideoTrack : FDolbyIOVideoTrack)
    : Op UDolbyIOSubsystem unit :=
  s ← op_get;
  match GetTexture (TrackID VideoTrack) s with
  | Some _ => BroadcastVideoTrackEnabled VideoTrack
  | None =>
      op_modify (set_BufferedEnabledVideoTracks
                   (FindOrAdd_Add (ParticipantID VideoTrack) VideoTrack))
  end.

(** [Handle(const utils::vfs_event&)] *)
Definition Handle_vfs_event (new_enabled new_disabled : list FDolbyIOVideoTrack)
    : Op UDolbyIOSubsystem unit :=
  for_each new_enabled Handle_new_enabled;;
  for_each new_disabled
    (λ VideoTrack, BroadcastEvent (OnVideoTrackDisabled VideoTrack)).

(** Modelled from the spec: the participant handlers that go with these
    overloads, the callers of [ProcessBufferedVideoTracks], are not among
    the sources. "OnParticipantKnown(ParticipantID): called when a
    participant record becomes available (created or updated with non-empty
    status). Drains PendingAddedTracks for that ParticipantID". *)
Definition OnParticipantKnown (Info : FDolbyIOParticipantInfo)
    : Op UDolbyIOSubsystem unit :=
  op_modify (set_RemoteParticipants <[UserID Info := Info]>);;
  ProcessBufferedVideoTracks (UserID Info).

Inductive Event :=
  | participant_known_ev (Info : FDolbyIOParticipantInfo)
  | video_track_added_ev (t : FDolbyIOVideoTrack)
  | video_track_removed_ev (t : FDolbyIOVideoTrack)
  | vfs_ev (new_enabled new_disabled : list FDolbyIOVideoTrack).

Definition dispatch (e : Event) : Op UDolbyIOSubsystem unit :=
  match e with
  | participant_known_ev Info => OnParticipantKnown Info
  | video_track_added_ev t => Handle_remote_video_track_added t
  | video_track_removed_ev t => Handle_remote_video_track_removed t
  | vfs_ev en dis => Handle_vfs_event en dis
  end.

Definition run (evs : list Event) : Op UDolbyIOSubsystem unit :=
  for_each evs dispatch.

End Video.

(** ** [Dolby::FSdkAccess]: the connection guards *)
Module SdkAccess.

(** Modelled from the spec: the class [FSdkStatus] is not among the
    sources. It holds the state of "a thin connection-state machine
    (disconnected → connecting → connected → disconnecting)"; each
    [OnX()] enters state X, and [IsX()] tests for it. *)
Inductive EConnectionStatus :=
  | Disconnected | Connecting | Connected | Disconnecting.

#[global] Instance EConnectionStatus_eq_dec : EqDecision EConnectionStatus.
Proof. solve_decision. Defined.

(** The continuation at the end of a [.then] chain that touches the
    status; it runs when the SDK completes the chain. The chain of
    [ConnectToDemoConference] ends in a continuation of its own, which also
    registers a handler of [participant_added] with the conference. *)
Inductive Continuation :=
  | then_OnConnected
  | then_OnConnected_add_event_handler
  | then_OnDisconnected.

(** The asynchronous calls into the SDK; a [.then] chain is the list of its
    calls. *)
Inductive SdkCall :=
  | session_open (user_name : string)
  | conference_demo
  | conference_add_event_handler
  | conference_create (alias : string)
  | conference_join
  | conference_leave
  | session_close
  | conference_mute (muted : bool)
  | conference_mute_output (muted : bool)
  | update_spatial_audio_configuration.

(** [participant_added_handlers] counts the handlers that the object has
    registered with [Sdk->conference().add_event_handler]: each is the
    lambda of [ConnectToDemoConference]. They are held by the SDK, which
    never gets asked to drop one, and go with it. *)
Record FSdkAccess := MkSdkAccess {
  Sdk : bool;
  Status : EConnectionStatus;
  DemoParticipantIDs : list string;
  participant_added_handlers : nat;
  InFlight : list Continuation
}.

Definition IsConnected (s : FSdkAccess) : bool := bool_decide (Status s = Connected).
Definition IsDisconnected (s : FSdkAccess) : bool := bool_decide (Status s = Disconnected).

Definition set_Status (st : EConnectionStatus) (s : FSdkAccess) : FSdkAccess :=
  {| Sdk := Sdk s; Status := st;
     DemoParticipantIDs := DemoParticipantIDs s;
     participant_added_handlers := participant_added_handlers s;
     InFlight := InFlight s |}.

Definition add_InFlight (c : Continuation) (s : FSdkAccess) : FSdkAccess :=
  {| Sdk := Sdk s; Status := Status s;
     DemoParticipantIDs := DemoParticipantIDs s;
     participant_added_handlers := participant_added_handlers s;
     InFlight := InFlight s ++ [c] |}.

(** The object as constructed: no SDK yet, nothing in flight. *)
Definition constructed : FSdkAccess :=
  {| Sdk := false; Status := Disconnected; DemoParticipantIDs := [];
     participant_added_handlers := 0; InFlight := [] |}.

(** What a call leaves behind: the object, the chain of SDK calls it
    started, and the message of the [std::logic_error] it threw into
    [DLB_CATCH_ALL]. *)
Record Outcome := MkOutcome {
  after : FSdkAccess;
  calls : list SdkCall;
  thrown : option string
}.

Definition returned (s : FSdkAccess) (cs : list SdkCall) : Outcome :=
  {| after := s; calls := cs; thrown := None |}.

Definition throw (s : FSdkAccess) (msg : string) : Outcome :=
  {| after := s; calls := []; thrown := Some msg |}.

(** [FSdkAccess::Initialize]; [created] tells whether [sdk::create]
    returned an SDK. The futures and the event handlers of the SDK that is
    reset go with it. *)
Definition Initialize (created : bool) (s : FSdkAccess) : Outcome :=
  returned {| Sdk := created; Status := Disconnected;
              DemoParticipantIDs := [];
              participant_added_handlers := 0; InFlight := [] |} [].

(** [ConnectToDemoConference]: the list is emptied at once; the last
    continuation of the chain enters connected and registers the handler
    that fills the list. *)
Definition ConnectToDemoConference (User : string) (s : FSdkAccess) : Outcome :=
  returned (add_InFlight then_OnConnected_add_event_handler
              {| Sdk := Sdk s; Status := Status s;
                 DemoParticipantIDs := [];
                 participant_added_handlers := participant_added_handlers s;
                 InFlight := InFlight s |})
           [session_open User; conference_demo; conference_add_event_handler].

Definition Connect (Conf User : string) (s : FSdkAccess) : Outcome :=
  if negb (Sdk s) then throw s "Must initialize SDK first"
  else if bool_decide (Conf = "") || bool_decide (User = "")
  then throw s "Conference name and user name cannot be empty"
  else if negb (IsDisconnected s) then throw s "Must disconnect first"
  else
    let s1 := set_Status Connecting s in
    if bool_decide (Conf = "demo") then ConnectToDemoConference User s1
    else returned (add_InFlight then_OnConnected s1)
                  [session_open User; conference_create Conf; conference_join].

Definition Disconnect (s : FSdkAccess) : Outcome :=
  if negb (IsConnected s) then returned s []
  else returned (add_InFlight then_OnDisconnected (set_Status Disconnecting s))
                [conference_leave; session_close].

Definition MuteInput (bIsMuted : bool) (s : FSdkAccess) : Outcome :=
  if negb (IsConnected s) then returned s []
  else returned s [conference_mute bIsMuted].

Definition MuteOutput (bIsMuted : bool) (s : FSdkAccess) : Outcome :=
  if negb (IsConnected s) then returned s []
  else returned s [conference_mute_output bIsMuted].

(** The position, the rotation and the demo participants only shape the
    update that is sent. *)
Definition UpdateViewPoint (s : FSdkAccess) : Outcome :=
  if negb (IsConnected s) then returned s []
  else returned s [update_spatial_audio_configuration].

(** The SDK completes the oldest chain in flight and runs its last
    continuation. *)
Definition complete (s : FSdkAccess) : Outcome :=
  match InFlight s with
  | [] => returned s []
  | c :: rest =>
      let s1 := {| Sdk := Sdk s; Status := Status s;
                   DemoParticipantIDs := DemoParticipantIDs s;
                   participant_added_handlers := participant_added_handlers s;
                   InFlight := rest |} in
      match c with
      | then_OnConnected => returned (set_Status Connected s1) []
      | then_OnConnected_add_event_handler =>
          returned {| Sdk := Sdk s; Status := Connected;
                      DemoParticipantIDs := DemoParticipantIDs s;
                      participant_added_handlers := S (participant_added_handlers s);
                      InFlight := rest |} []
      | then_OnDisconnected => returned (set_Status Disconnected s1) []
      end
  end.

(** The SDK announces a participant: every handler registered by
    [ConnectToDemoConference] runs [DemoParticipantIDs.Add(user_id)]. *)
Definition participant_added (user_id : string) (s : FSdkAccess) : Outcome :=
  returned {| Sdk := Sdk s; Status := Status s;
              DemoParticipantIDs :=
                DemoParticipantIDs s ++ replicate (participant_added_handlers s) user_id;
              participant_added_handlers := participant_added_handlers s;
              InFlight := InFlight s |} [].

Inductive Command :=
  | cmd_Initialize (created : bool)
  | cmd_Connect (Conf User : string)
  | cmd_Disconnect
  | cmd_MuteInput (bIsMuted : bool)
  | cmd_MuteOutput (bIsMuted : bool)
  | cmd_UpdateViewPoint
  | sdk_completes
  | sdk_participant_added (user_id : string).

Definition exec (c : Command) (s : FSdkAccess) : Outcome :=
  match c with
  | cmd_Initialize created => Initialize created s
  | cmd_Connect Conf User => Connect Conf User s
  | cmd_Disconnect => Disconnect s
  | cmd_MuteInput b => MuteInput b s
  | cmd_MuteOutput b => MuteOutput b s
  | cmd_UpdateViewPoint => UpdateViewPoint s
  | sdk_completes => complete s
  | sdk_participant_added user_id => participant_added user_id s
  end.

Definition run (cs : list Command) (s : FSdkAccess) : FSdkAccess :=
  foldl (λ s c, after (exec c s)) s cs.

(** One edge of the cycle disconnected → connecting → connected →
    disconnecting → disconnected, or no move at all. *)
Definition along (a b : EConnectionStatus) : Prop :=
  a = b ∨
  match a with
  | Disconnected => b = Connecting
  | Connecting => b = Connected
  | Connected => b = Disconnecting
  | Disconnecting => b = Disconnected
  end.

#[global] Instance along_dec a b : Decision (along a b).
Proof. unfold along. destruct a; apply _. Defined.

(** The status agrees with what is in flight. *)
Definition coherent (s : FSdkAccess) : Prop :=
  (InFlight s = [] ∧ (Status s = Disconnected ∨ Status s = Connected)) ∨
  ((InFlight s = [then_OnConnected] ∨
    InFlight s = [then_OnConnected_add_event_handler]) ∧ Status s = Connecting) ∨
  (InFlight s = [then_OnDisconnected] ∧ Status s = Disconnecting).

End SdkAccess.

(** ** Material bindings *)

(** [Material] is bound to the sink stored under [Key]. *)
Definition bound_to (s : Video.UDolbyIOSubsystem) (Material : Material)
    (Key : string) : Prop :=
  ∃ sink, Video.VideoSinks s !! Key = Some sink ∧ Material ∈ Materials sink.

(** No material shows on the sinks of two tracks. *)
Definition exclusive (s : Video.UDolbyIOSubsystem) : Prop :=
  ∀ Material Key1 Key2,
    bound_to s Material Key1 → bound_to s Material Key2 → Key1 = Key2.

(** A state with two remote sinks; material 7 shows on the first. *)
Definition two_sinks : Video.UDolbyIOSubsystem :=
  {| Video.RemoteParticipants := ∅;
     Video.VideoSinks :=
       {[ "v1" := FVideoSink_BindMaterial 7 (FVideoSink_new "v1");
          "v2" := FVideoSink_new "v2" ]};
     Video.BufferedAddedVideoTracks := ∅;
     Video.BufferedEnabledVideoTracks := ∅ |}.


(** ** Replayed notifications *)

(** What a drain of the buffered tracks [l] may broadcast: "track added"
    for each track of [l], in the order of [l], each followed at once by at
    most one "track enabled", which then carries the same track ID. *)
Inductive replay_log : list FDolbyIOVideoTrack → list Notification → Prop :=
  | replay_nil : replay_log [] []
  | replay_added t l log :
      replay_log l log →
      replay_log (t :: l) (OnVideoTrackAdded t :: log)
  | replay_added_enabled t e l log :
      TrackID e = TrackID t →
      replay_log l log →
      replay_log (t :: l) (OnVideoTrackAdded t :: OnVideoTrackEnabled e :: log).

(** Scanning a log from its oldest notification on, every "track enabled"
    names a track ID that a "track added" has announced before it; [seen]
    holds the IDs announced before the log starts. *)
Fixpoint enabled_follow_added (seen : gset string) (log : list Notification) : Prop :=
  match log with
  | [] => True
  | OnVideoTrackAdded t :: log' => enabled_follow_added ({[ TrackID t ]} ∪ seen) log'
  | OnVideoTrackEnabled t :: log' => TrackID t ∈ seen ∧ enabled_follow_added seen log'
  | _ :: log' => enabled_follow_added seen log'
  end.

(** The track IDs announced by the "track added" notifications of a log. *)
Definition added_ids (log : list Notification) : gset string :=
  list_to_set (TrackID <$> added_of log).

(** Only sinks of announced tracks have a texture. *)
Definition textures_announced (s : Video.UDolbyIOSubsystem) (seen : gset string) : Prop :=
  ∀ Key sink, Video.VideoSinks s !! Key = Some sink → is_Some (Texture sink) → Key ∈ seen.

(** ** Sample data *)

Definition v1_p1 : FDolbyIOVideoTrack := {| TrackID := "v1"; ParticipantID := "p1" |}.
Definition v2_p1 : FDolbyIOVideoTrack := {| TrackID := "v2"; ParticipantID := "p1" |}.

Definition p1 : participant_info :=
  {| user_id := "p1"; info_name := "Ann"; info_external_id := "ann@example";
     status := Some OnAir |}.

Definition p1_info : FDolbyIOParticipantInfo := ToFDolbyIOParticipantInfo p1.

(** The same participant as the SDK may announce it first: without a
    status. *)
Definition p1_no_status : participant_info :=
  {| user_id := "p1"; info_name := "Ann"; info_external_id := "ann@example";
     status := None |}.

(** The [Handle] variant before any remote event. *)
Definition video_fresh : Video.UDolbyIOSubsystem :=
  {| Video.RemoteParticipants := ∅;
     Video.VideoSinks := ∅;
     Video.BufferedAddedVideoTracks := ∅;
     Video.BufferedEnabledVideoTracks := ∅ |}.

(** The [Handle] variant with track v1 of the known participant p1
    announced: the surface of its sink exists. *)
Definition video_v1_textured : Video.UDolbyIOSubsystem :=
  {| Video.RemoteParticipants := {[ "p1" := p1_info ]};
     Video.VideoSinks := {[ "v1" := FVideoSink_CreateTexture (FVideoSink_new "v1") ]};
     Video.BufferedAddedVideoTracks := ∅;
     Video.BufferedEnabledVideoTracks := ∅ |}.

(** ** Tactics *)

(** Unfold the primitives of [Op]. *)
Ltac op_unfold :=
  unfold mbind, mret, Op_bind, Op_ret, op_get, op_modify, op_check_fail,
    BroadcastEvent.

(** Read a hypothesis [H : m s = Some _] off a primitive [m]. *)
Ltac op_inv H := revert H; cbn; op_unfold; cbn; intros H; simplify_eq.

(** ** Invariants of the buffers and of the sinks *)

(** Every array of a buffer is non-empty and holds tracks of the
    participant it is stored under. *)
Definition buffer_keyed (m : gmap string (list FDolbyIOVideoTrack)) : Prop :=
  ∀ P l, m !! P = Some l → l ≠ [] ∧ ∀ t, t ∈ l → ParticipantID t = P.

(** Every sink is stored under the track ID it was made for. *)
Definition sinks_keyed (sinks : gmap string FVideoSink) : Prop :=
  ∀ Key sink, sinks !! Key = Some sink → VideoTrackID sink = Key.

(** What the subsystem is asked to do in the [Handle] variant: the SDK
    events, and the two material calls of the application. *)
Inductive Action :=
  | act_event (e : Video.Event)
  | act_BindMaterial (Material : Material) (VideoTrackID : string)
  | act_UnbindMaterial (Material : Material) (VideoTrackID : string).

Definition perform (a : Action) : Op Video.UDolbyIOSubsystem unit :=
  match a with
  | act_event e => Video.dispatch e
  | act_BindMaterial m tid => op_modify (Video.BindMaterial m tid)
  | act_UnbindMaterial m tid => op_modify (Video.UnbindMaterial m tid)
  end.

Definition session (acts : list Action) : Op Video.UDolbyIOSubsystem unit :=
  for_each acts perform.

(** The sinks of [s'] are those of [s], some of them with their texture
    created since. *)
Definition sinks_retextured (sinks sinks' : gmap string FVideoSink) : Prop :=
  ∀ Key,
    sinks' !! Key = sinks !! Key ∨
    ∃ sink, sinks !! Key = Some sink ∧
            sinks' !! Key = Some (FVideoSink_CreateTexture sink).

(** A session of the inline handlers in which participant p1, first
    announced without a status, gets two tracks. *)
Definition inline_sample_session : list Inline.Event :=
  [Inline.participant_added_ev p1_no_status;
   Inline.video_track_added_ev v1_p1;
   Inline.participant_added_ev p1;
   Inline.video_track_added_ev v2_p1].

(** The inline subsystem with participant p1 on record. *)
Definition inline_p1_known : Inline.UDolbyIOSubsystem :=
  Inline.set_RemoteParticipants <["p1" := p1_info]> (Inline.fresh ∅).

(** A session of the [Handle] variant: two tracks of p1 arrive before p1
    is known, one is enabled early, a material moves from one to the
    other. *)
Definition video_sample_session : list Action :=
  [act_event (Video.video_track_added_ev v1_p1);
   act_BindMaterial 7 "v1";
   act_event (Video.vfs_ev [v1_p1] []);
   act_event (Video.video_track_added_ev v2_p1);
   act_BindMaterial 7 "v2";
   act_event (Video.participant_known_ev p1_info);
   act_UnbindMaterial 7 "v2";
   act_event (Video.video_track_removed_ev v1_p1)].



(** The [Handle] variant with two tracks of p1 buffered, p1 not known. *)
Definition video_two_buffered : Video.UDolbyIOSubsystem :=
  {| Video.RemoteParticipants := ∅;
     Video.VideoSinks := {[ "v1" := FVideoSink_new "v1"; "v2" := FVideoSink_new "v2" ]};
     Video.BufferedAddedVideoTracks := {[ "p1" := [v1_p1; v2_p1] ]};
     Video.BufferedEnabledVideoTracks := ∅ |}.

(** ** [FSdkAccess]: what its guards protect *)

(** Whenever the status is not disconnected, there is an SDK. *)
Definition sdk_present (s : SdkAccess.FSdkAccess) : Prop :=
  SdkAccess.Status s ≠ SdkAccess.Disconnected → SdkAccess.Sdk s = true.


(** ** [UDolbyIOSubsystem::SetToken] and the refresh callback *)
Module Token.

(** The two members that [SetToken] looks at: whether [Sdk] is set, and
    whether a [RefreshTokenCb] is held. *)
Record UDolbyIOSubsystem := MkSubsystem {
  Sdk : bool;
  RefreshTokenCb : bool
}.

(** What [SetToken] and the SDK's request do towards the outside. *)
Inductive Effect :=
  | launch_Initialize (Token : string)
  | call_RefreshTokenCb (Token : string)
  | broadcast_OnTokenNeeded.

(** [SetToken]: without an SDK it launches [Initialize(Token)] as a task;
    with an SDK and a callback it calls the callback (whether or not that
    throws) and resets the pointer; otherwise it does nothing. *)
Definition SetToken (Token : string) (s : UDolbyIOSubsystem)
    : UDolbyIOSubsystem * list Effect :=
  if negb (Sdk s) then (s, [launch_Initialize Token])
  else if RefreshTokenCb s then
    ({| Sdk := Sdk s; RefreshTokenCb := false |}, [call_RefreshTokenCb Token])
  else (s, []).

(** The lambda that [Initialize(Token)] hands to [sdk::create]: the SDK
    calls it when it wants a new token. *)
Definition refresh_token_requested (s : UDolbyIOSubsystem)
    : UDolbyIOSubsystem * list Effect :=
  ({| Sdk := Sdk s; RefreshTokenCb := true |}, [broadcast_OnTokenNeeded]).

(** The [try] block of [Initialize(Token)]: [Sdk] is set when
    [sdk::create] returns ([created]) and left alone when it throws. *)
Definition Initialize_create (created : bool) (s : UDolbyIOSubsystem)
    : UDolbyIOSubsystem * list Effect :=
  if created then ({| Sdk := true; RefreshTokenCb := RefreshTokenCb s |}, [])
  else (s, []).

Inductive Step :=
  | do_SetToken (Token : string)
  | task_Initialize (created : bool)
  | sdk_requests_token.

#[global] Instance Step_eq_dec : EqDecision Step.
Proof. solve_decision. Defined.

Definition step (st : Step) (s : UDolbyIOSubsystem) : UDolbyIOSubsystem * list Effect :=
  match st with
  | do_SetToken Token => SetToken Token s
  | task_Initialize created => Initialize_create created s
  | sdk_requests_token => refresh_token_requested s
  end.

Fixpoint run (steps : list Step) (s : UDolbyIOSubsystem)
    : UDolbyIOSubsystem * list Effect :=
  match steps with
  | [] => (s, [])
  | st :: steps' =>
      let '(s1, l1) := step st s in
      let '(s2, l2) := run steps' s1 in
      (s2, l1 ++ l2)
  end.

(** The tokens handed to the refresh callback. *)
Definition refreshed (effs : list Effect) : list string :=
  omap (λ e, match e with call_RefreshTokenCb Token => Some Token | _ => None end) effs.

(** How often the SDK asked for a token. *)
Definition requests (steps : list Step) : nat :=
  length (filter (λ st, st = sdk_requests_token) steps).

Definition pending (s : UDolbyIOSubsystem) : nat :=
  if RefreshTokenCb s then 1 else 0.

End Token.

(** ** [FDolbyIOModule]: loading and unloading the SDK libraries *)
Module DolbyIOModule.

(** A non-null [FDllHandle]. *)
Definition FDllHandle := nat.

Record FDll := MkDll {
  Handle : FDllHandle;
  Name : string
}.

#[global] Instance FDll_eq_dec : EqDecision FDll.
Proof. solve_decision. Defined.

(** [FPaths::Combine] of two parts. *)
Definition Combine (a b : string) : string := a +:+ "/" +:+ b.

Inductive EPlatform := Windows | Mac | Linux | Other.

(** The directory the libraries of a platform are loaded from. *)
Definition library_dir (PluginBaseDir : string) (p : EPlatform) : string :=
  let BaseDir := Combine PluginBaseDir "sdk-release" in
  match p with
  | Windows => Combine BaseDir "bin"
  | Mac => Combine BaseDir "lib"
  | Linux => Combine (BaseDir +:+ "-ubuntu-20.04-clang10-libc++10") "lib"
  | Other => BaseDir
  end.

(** The libraries [StartupModule] loads on a platform, in the order of its
    [LoadDll] calls. *)
Definition libraries (p : EPlatform) : list string :=
  match p with
  | Windows =>
      ["avutil-57.dll"; "avcodec-59.dll"; "dvclient.dll";
       "dolbyio_comms_media.dll"; "dolbyio_comms_sdk.dll";
       "opencv_core451.dll"; "opencv_imgproc451.dll"; "opencv_imgcodecs451.dll";
       "dvdnr.dll"; "dlb_vidseg_c_api.dll"; "video_processor.dll"]
  | Mac =>
      ["libdolbyio_comms_media.dylib"; "libdolbyio_comms_sdk.dylib";
       "libvideo_processor.dylib"]
  | Linux =>
      ["libavutil.so.57"; "libavcodec.so.59"; "libavformat.so.59";
       "libdvclient.so"; "libdolbyio_comms_media.so"; "libdolbyio_comms_sdk.so"]
  | Other => []
  end.

Section loader.

(** [FPlatformProcess::GetDllHandle]: the handle of the library at a path,
    if it can be loaded. *)
Variable GetDllHandle : string → option FDllHandle.

(** [LoadDll]: the library is pushed on [Dlls], or the module stops on the
    [Fatal] log ([None]). *)
Definition LoadDll (BaseDir Dll : string) (Dlls : list FDll) : option (list FDll) :=
  match GetDllHandle (Combine BaseDir Dll) with
  | Some Handle => Some (Dlls ++ [{| Handle := Handle; Name := Dll |}])
  | None => None
  end.

(** A run of [LoadDll] calls on one directory. *)
Fixpoint LoadDlls (BaseDir : string) (names : list string) (Dlls : list FDll)
    : option (list FDll) :=
  match names with
  | [] => Some Dlls
  | Dll :: names' =>
      match LoadDll BaseDir Dll Dlls with
      | Some Dlls' => LoadDlls BaseDir names' Dlls'
      | None => None
      end
  end.

(** [StartupModule]; the allocator calls in between go to the SDK. *)
Definition StartupModule (PluginBaseDir : string) (p : EPlatform)
    (Dlls : list FDll) : option (list FDll) :=
  LoadDlls (library_dir PluginBaseDir p) (libraries p) Dlls.

(** The entry [d] of [Dlls] carries the handle that its library was
    loaded under from [BaseDir]. *)
Definition loaded_from (BaseDir : string) (d : FDll) : Prop :=
  GetDllHandle (Combine BaseDir (Name d)) = Some (Handle d).

End loader.

(** [ShutdownModule]: [while (Dlls.Num())] pop the last library and free
    its handle. The result is the libraries freed, in the order they were
    freed, and what is left of [Dlls]; [fuel] bounds the turns of the
    loop. *)
Fixpoint ShutdownModule (fuel : nat) (Dlls : list FDll)
    : option (list FDll * list FDll) :=
  match Dlls with
  | [] => Some ([], [])
  | _ :: _ =>
      match fuel with
      | 0 => None
      | S fuel' =>
          match last Dlls with
          | Some Dll =>
              match ShutdownModule fuel' (removelast Dlls) with
              | Some (freed, rest) => Some (Dll :: freed, rest)
              | None => None
              end
          | None => None
          end
      end
  end.

End DolbyIOModule.

(** ** [FDeviceManagement::GetAllDevices] and the audio-level handlers *)
Module DeviceManagement.

(** A [dvc_device] as the callbacks read it; the direction is the SDK's
    bit mask. *)
Record dvc_device := MkDevice {
  uid : string;
  name : string;
  direction : N
}.

#[global] Instance dvc_device_eq_dec : EqDecision dvc_device.
Proof. solve_decision. Defined.

Section directions.

(** [dvc_device::input] and [dvc_device::output], the masks of the SDK. *)
Variables (input output : N).

(** [Device.direction() & dvc_device::input], as a [bool]. *)
Definition IsInput (Device : dvc_device) : bool :=
  negb (N.land (direction Device) input =? 0)%N.

Definition IsOutput (Device : dvc_device) : bool :=
  negb (N.land (direction Device) output =? 0)%N.

(** The four arrays that the continuation of [get_audio_devices] fills. *)
Record InitArrays := MkInit {
  InitInputDevices : list dvc_device;
  InitOutputDevices : list dvc_device;
  InitInputDeviceNames : list string;
  InitOutputDeviceNames : list string
}.

(** One turn of the loop over [Devices]. *)
Definition GetAllDevices_turn (a : InitArrays) (Device : dvc_device) : InitArrays :=
  let DeviceName := name Device in
  let a1 :=
    if IsInput Device then
      {| InitInputDevices := InitInputDevices a ++ [Device];
         InitOutputDevices := InitOutputDevices a;
         InitInputDeviceNames := InitInputDeviceNames a ++ [DeviceName];
         InitOutputDeviceNames := InitOutputDeviceNames a |}
    else a in
  if IsOutput Device then
    {| InitInputDevices := InitInputDevices a1;
       InitOutputDevices := InitOutputDevices a1 ++ [Device];
       InitInputDeviceNames := InitInputDeviceNames a1;
       InitOutputDeviceNames := InitOutputDeviceNames a1 ++ [DeviceName] |}
  else a1.

(** The arrays handed to [InputDevices->Initialize] and
    [OutputDevices->Initialize]. *)
Definition GetAllDevices (Devices : list dvc_device) : InitArrays :=
  foldl GetAllDevices_turn
    {| InitInputDevices := []; InitOutputDevices := [];
       InitInputDeviceNames := []; InitOutputDeviceNames := [] |}
    Devices.

End directions.

End DeviceManagement.

Module AudioLevels.

Section levels.

(** The type of an audio level, a [float] in the source. *)
Variable float : Type.

Record audio_level := MkLevel {
  participant_id : string;
  level : float
}.

(** The handler of [audio_levels]: the two arrays it broadcasts with
    [OnAudioLevelsChanged]. *)
Definition audio_levels_handler (levels : list audio_level)
    : list string * list float :=
  foldl (λ '(ActiveSpeakers, AudioLevels) Level,
           (ActiveSpeakers ++ [participant_id Level], AudioLevels ++ [level Level]))
        ([], []) levels.

End levels.

End AudioLevels.

(** ** Running handlers *)

Lemma op_bind_Some {St A B} (m : Op St A) (k : A → Op St B) s a s1 l1 :
  m s = Some (a, s1, l1) →
  (m ≫= k) s =
  match k a s1 with
  | Some (b, s2, l2) => Some (b, s2, l1 ++ l2)
  | None => None
  end.
Proof. intros H. unfold mbind, Op_bind. by rewrite H. Qed.

Lemma op_bind_inv {St A B} (m : Op St A) (k : A → Op St B) s b s2 l :
  (m ≫= k) s = Some (b, s2, l) →
  ∃ a s1 l1 l2, m s = Some (a, s1, l1) ∧ k a s1 = Some (b, s2, l2) ∧ l = l1 ++ l2.
Proof.
  unfold mbind, Op_bind. intros H.
  destruct (m s) as [[[a s1] l1]|]; [|done].
  destruct (k a s1) as [[[b' s2'] l2]|] eqn:Hk; [|done].
  simplify_eq. by exists a, s1, l1, l2.
Qed.

Lemma for_each_cons {St A} (x : A) l (body : A → Op St unit) :
  for_each (x :: l) body = (body x ;; for_each l body).
Proof. reflexivity. Qed.

Lemma for_each_broadcast {St A} (f : A → Notification) (l : list A) (s : St) :
  for_each l (λ x, BroadcastEvent (f x)) s = Some (tt, s, f <$> l).
Proof.
  induction l as [|x l IH]; [done|].
  rewrite for_each_cons.
  erewrite op_bind_Some by reflexivity. by rewrite IH.
Qed.

Lemma added_of_app l1 l2 : added_of (l1 ++ l2) = added_of l1 ++ added_of l2.
Proof. apply omap_app. Qed.

Lemma added_of_fmap_added l : added_of (OnVideoTrackAdded <$> l) = l.
Proof. induction l as [|x l IH]; [done|]. cbn. f_equal. exact IH. Qed.

(** ** Materials and textures *)

Section materials.
Implicit Types (s : Video.UDolbyIOSubsystem) (m : Material) (tid k : string).

Lemma BindMaterial_lookup s m tid k :
  Video.VideoSinks (Video.BindMaterial m tid s) !! k =
  (λ sink, if decide (k = tid) then FVideoSink_BindMaterial m sink
           else FVideoSink_UnbindMaterial m sink) <$> Video.VideoSinks s !! k.
Proof.
  unfold Video.BindMaterial. cbn.
  rewrite map_lookup_imap.
  destruct (Video.VideoSinks s !! tid) as [sink|] eqn:E; cbn.
  - rewrite decide_False by naive_solver. cbn.
    destruct (decide (k = tid)) as [->|Hne].
    + by rewrite lookup_insert_eq, E.
    + rewrite lookup_insert_ne, map_lookup_imap by done.
      destruct (Video.VideoSinks s !! k); cbn; [|done].
      by rewrite decide_True.
  - rewrite map_lookup_imap.
    destruct (decide (k = tid)) as [->|Hne]; [by rewrite E|].
    destruct (Video.VideoSinks s !! k); cbn; [|done].
    by rewrite decide_True.
Qed.

Lemma BindMaterial_bound_to s m tid k :
  bound_to (Video.BindMaterial m tid s) m k → k = tid.
Proof.
  intros (sink & Hl & Hmem). rewrite BindMaterial_lookup in Hl.
  destruct (Video.VideoSinks s !! k) as [sink0|]; simplify_eq/=.
  destruct (decide (k = tid)); [done|].
  cbn in Hmem. apply elem_of_difference in Hmem as [_ Hmem].
  destruct Hmem. by apply elem_of_singleton.
Qed.

Lemma BindMaterial_bound_to_other s m m' tid k :
  m' ≠ m → bound_to (Video.BindMaterial m tid s) m' k ↔ bound_to s m' k.
Proof.
  intros Hne. unfold bound_to. setoid_rewrite BindMaterial_lookup.
  split.
  - intros (sink & Hl & Hmem).
    destruct (Video.VideoSinks s !! k) as [sink0|]; simplify_eq/=.
    eexists; split; [done|].
    case_decide; cbn in Hmem |- *.
    + apply elem_of_union in Hmem as [Hmem%elem_of_singleton|Hmem]; done.
    + by apply elem_of_difference in Hmem as [Hmem _].
  - intros (sink & Hl & Hmem). rewrite Hl. cbn.
    eexists; split; [done|].
    case_decide; cbn.
    + by apply elem_of_union_r.
    + apply elem_of_difference. split; [done|]. by intros ?%elem_of_singleton.
Qed.

End materials.

(** C9: for a [VideoTrackID] that has no entry in [VideoSinks],
    [GetTexture] returns null, [UnbindMaterial] changes nothing, and
    [BindMaterial] binds nothing, but it does unbind: the track still has no
    sink, and every sink that is there is what it was with the material
    taken off, so that the material shows nowhere afterwards, while every
    other material shows where it did. [BindMaterial] leaves the subsystem
    as it was exactly when the material was bound nowhere. None of the
    three can fail. *)
Theorem lookup_miss_binds_nothing
    (s : Video.UDolbyIOSubsystem) (Material : Material) (VideoTrackID : string) :
  Video.VideoSinks s !! VideoTrackID = None →
  Video.GetTexture VideoTrackID s = None ∧
  Video.UnbindMaterial Material VideoTrackID s = s ∧
  Video.VideoSinks (Video.BindMaterial Material VideoTrackID s) !! VideoTrackID = None ∧
  (∀ Key, ¬ bound_to (Video.BindMaterial Material VideoTrackID s) Material Key) ∧
  (∀ Key, Video.VideoSinks (Video.BindMaterial Material VideoTrackID s) !! Key =
          FVideoSink_UnbindMaterial Material <$> Video.VideoSinks s !! Key) ∧
  (∀ Material' Key, Material' ≠ Material →
     bound_to (Video.BindMaterial Material VideoTrackID s) Material' Key ↔
     bound_to s Material' Key) ∧
  (Video.BindMaterial Material VideoTrackID s = s ↔
   ∀ Key, ¬ bound_to s Material Key).
Proof.
  intros Hmiss.
  assert (Hl : ∀ Key,
    Video.VideoSinks (Video.BindMaterial Material VideoTrackID s) !! Key =
    FVideoSink_UnbindMaterial Material <$> Video.VideoSinks s !! Key).
  { intros Key. rewrite BindMaterial_lookup.
    destruct (decide (Key = VideoTrackID)) as [->|]; [by rewrite Hmiss|done]. }
  split; [unfold Video.GetTexture; by rewrite Hmiss|].
  split; [unfold Video.UnbindMaterial; by rewrite Hmiss|].
  split; [by rewrite Hl, Hmiss|].
  split.
  { intros Key Hb. pose proof (BindMaterial_bound_to _ _ _ _ Hb) as ->.
    destruct Hb as (sink & Hs & _). by rewrite Hl, Hmiss in Hs. }
  split; [exact Hl|].
  split; [intros Material' Key Hne; by apply BindMaterial_bound_to_other|].
  split.
  - intros Heq Key (sink & Hs & Hin).
    pose proof (Hl Key) as HK. rewrite Heq, Hs in HK. cbn in HK.
    injection HK as HK. apply (f_equal Materials) in HK. cbn in HK.
    rewrite HK in Hin. apply elem_of_difference in Hin as [_ Hin].
    apply Hin. by apply elem_of_singleton.
  - intros Hfree.
    assert (HS : Video.VideoSinks (Video.BindMaterial Material VideoTrackID s)
                 = Video.VideoSinks s).
    { apply map_eq. intros Key. rewrite Hl.
      destruct (Video.VideoSinks s !! Key) as [sink|] eqn:Hs; [|done]. cbn.
      f_equal. destruct sink as [tid tex mats].
      unfold FVideoSink_UnbindMaterial. cbn. f_equal.
      apply difference_disjoint_L, disjoint_singleton_r.
      intros Hin. apply (Hfree Key). by exists (MkVideoSink tid tex mats). }
    revert HS. unfold Video.BindMaterial. cbn.
    rewrite map_lookup_imap, Hmiss. cbn.
    destruct s as [rp vs ba be]. unfold Video.set_VideoSinks. cbn. by intros ->.
Qed.

Lemma lookup_miss_binds_nothing_witness :
  Video.VideoSinks two_sinks !! "v9" = None ∧
  Video.GetTexture "v9" two_sinks = None ∧
  Video.UnbindMaterial 7 "v9" two_sinks = two_sinks ∧
  Video.VideoSinks (Video.BindMaterial 7 "v9" two_sinks) !! "v9" = None ∧
  (∀ Key, ¬ bound_to (Video.BindMaterial 7 "v9" two_sinks) 7 Key).
Proof.
  assert (H : Video.VideoSinks two_sinks !! "v9" = None) by (vm_compute; reflexivity).
  split; [exact H|].
  destruct (lookup_miss_binds_nothing two_sinks 7 "v9" H) as (H1 & H2 & H3 & H4 & _).
  repeat split; assumption.
Defined.

(** C9 as stated fails: on a lookup miss [BindMaterial] does not leave the
    bindings as they were. Material 7 shows on the sink of track v1;
    binding it to a track that has no sink takes it off. *)
Lemma lookup_miss_unbinds_counterexample :
  Video.VideoSinks two_sinks !! "v9" = None ∧
  Materials <$> Video.VideoSinks two_sinks !! "v1" = Some {[ 7 ]} ∧
  Materials <$> Video.VideoSinks (Video.BindMaterial 7 "v9" two_sinks) !! "v1"
    = Some ∅ ∧
  Video.BindMaterial 7 "v9" two_sinks ≠ two_sinks.
Proof.
  split; [vm_compute; reflexivity|].
  split; [vm_compute; reflexivity|].
  split; [vm_compute; reflexivity|].
  intros Heq.
  apply (f_equal (λ s, Materials <$> Video.VideoSinks s !! "v1")) in Heq.
  vm_compute in Heq. discriminate.
Qed.

(** C10: after [BindMaterial(Material, VideoTrackID)] the material shows on
    no sink but the one stored under [VideoTrackID], hence on at most one;
    the bindings of the other materials are what they were, so a state in
    which no material shows on two sinks stays one. *)
Theorem BindMaterial_at_most_one_sink
    (s : Video.UDolbyIOSubsystem) (Material : Material) (VideoTrackID : string) :
  (∀ Key, bound_to (Video.BindMaterial Material VideoTrackID s) Material Key →
          Key = VideoTrackID) ∧
  (∀ Key1 Key2,
     bound_to (Video.BindMaterial Material VideoTrackID s) Material Key1 →
     bound_to (Video.BindMaterial Material VideoTrackID s) Material Key2 →
     Key1 = Key2) ∧
  (exclusive s → exclusive (Video.BindMaterial Material VideoTrackID s)).
Proof.
  split; [|split].
  - intros Key. apply BindMaterial_bound_to.
  - intros Key1 Key2 H1%BindMaterial_bound_to H2%BindMaterial_bound_to. congruence.
  - intros Hex m' Key1 Key2 H1 H2.
    destruct (decide (m' = Material)) as [->|Hne].
    + apply BindMaterial_bound_to in H1, H2. congruence.
    + apply BindMaterial_bound_to_other in H1, H2; [|done..]. eauto.
Qed.

Lemma BindMaterial_at_most_one_sink_witness :
  bound_to two_sinks 7 "v1" ∧
  exclusive two_sinks ∧
  (∃ Key, bound_to (Video.BindMaterial 7 "v2" two_sinks) 7 Key ∧ Key = "v2") ∧
  exclusive (Video.BindMaterial 7 "v2" two_sinks).
Proof.
  assert (Hv1 : bound_to two_sinks 7 "v1").
  { exists (FVideoSink_BindMaterial 7 (FVideoSink_new "v1")).
    split; [vm_compute; reflexivity|]. cbn.
    by apply elem_of_union_l, elem_of_singleton. }
  assert (Hex : exclusive two_sinks).
  { assert (Honly : ∀ m k, bound_to two_sinks m k → k = "v1").
    { intros m k (sink & Hl & Hm). cbn in Hl.
      destruct (decide (k = "v1")) as [->|Hk1]; [done|].
      rewrite lookup_insert_ne in Hl by done.
      destruct (decide (k = "v2")) as [->|Hk2].
      - rewrite lookup_singleton_eq in Hl. injection Hl as <-. cbn in Hm.
        by apply elem_of_empty in Hm.
      - by rewrite lookup_singleton_ne in Hl by done. }
    intros m k1 k2 H1%Honly H2%Honly. congruence. }
  assert (Hv2 : bound_to (Video.BindMaterial 7 "v2" two_sinks) 7 "v2").
  { exists (FVideoSink_BindMaterial 7 (FVideoSink_new "v2")).
    split; [vm_compute; reflexivity|]. cbn.
    by apply elem_of_union_l, elem_of_singleton. }
  destruct (BindMaterial_at_most_one_sink two_sinks 7 "v2") as (Hone & _ & Hkeep).
  split; [exact Hv1|]. split; [exact Hex|]. split.
  - exists "v2". split; [exact Hv2|exact (Hone "v2" Hv2)].
  - exact (Hkeep Hex).
Defined.

(** ** Track enabled *)

Lemma Handle_vfs_event_one_enabled
    (s : Video.UDolbyIOSubsystem) (VideoTrack : FDolbyIOVideoTrack)
    (new_disabled : list FDolbyIOVideoTrack) :
  Video.Handle_vfs_event [VideoTrack] new_disabled s =
  match Video.GetTexture (TrackID VideoTrack) s with
  | Some _ =>
      Some (tt, s,
            OnVideoTrackEnabled VideoTrack :: (OnVideoTrackDisabled <$> new_disabled))
  | None =>
      Some (tt,
            Video.set_BufferedEnabledVideoTracks
              (λ m, <[ParticipantID VideoTrack :=
                        default [] (m !! ParticipantID VideoTrack) ++ [VideoTrack]]> m) s,
            OnVideoTrackDisabled <$> new_disabled)
  end.
Proof.
  unfold Video.Handle_vfs_event. rewrite for_each_cons.
  unfold Video.Handle_new_enabled, Video.BroadcastVideoTrackEnabled,
    Video.FindOrAdd_Add.
  destruct (Video.GetTexture (TrackID VideoTrack) s) eqn:Htex.
  - erewrite op_bind_Some; last first.
    { erewrite op_bind_Some; last first.
      { erewrite op_bind_Some by reflexivity. rewrite Htex. reflexivity. }
      reflexivity. }
    by rewrite for_each_broadcast.
  - erewrite op_bind_Some; last first.
    { erewrite op_bind_Some; last first.
      { erewrite op_bind_Some by reflexivity. rewrite Htex. reflexivity. }
      reflexivity. }
    by rewrite for_each_broadcast.
Qed.

(** C6: a track-enabled event for a track whose sink holds a texture is
    broadcast at once and leaves the subsystem as it was. One for a track
    without a texture (no sink under its ID, or a sink whose surface does
    not exist yet) broadcasts no "track enabled": the track is appended to
    the array stored in [BufferedEnabledVideoTracks] under its participant,
    which starts out empty if the participant had none, and nothing else of
    the subsystem changes. The disabled tracks of the same event are
    announced behind it in either case. *)
Theorem Handle_vfs_event_enabled
    (s : Video.UDolbyIOSubsystem) (VideoTrack : FDolbyIOVideoTrack)
    (new_disabled : list FDolbyIOVideoTrack) :
  (∀ Sink Surface,
     Video.VideoSinks s !! TrackID VideoTrack = Some Sink →
     Texture Sink = Some Surface →
     Video.Handle_vfs_event [VideoTrack] new_disabled s =
       Some (tt, s,
             OnVideoTrackEnabled VideoTrack :: (OnVideoTrackDisabled <$> new_disabled))) ∧
  ((∀ Sink, Video.VideoSinks s !! TrackID VideoTrack = Some Sink →
            Texture Sink = None) →
   ∃ s',
     Video.Handle_vfs_event [VideoTrack] new_disabled s =
       Some (tt, s', OnVideoTrackDisabled <$> new_disabled) ∧
     Video.BufferedEnabledVideoTracks s' !! ParticipantID VideoTrack =
       Some (default [] (Video.BufferedEnabledVideoTracks s !! ParticipantID VideoTrack)
             ++ [VideoTrack]) ∧
     (∀ P, P ≠ ParticipantID VideoTrack →
        Video.BufferedEnabledVideoTracks s' !! P =
        Video.BufferedEnabledVideoTracks s !! P) ∧
     Video.VideoSinks s' = Video.VideoSinks s ∧
     Video.BufferedAddedVideoTracks s' = Video.BufferedAddedVideoTracks s ∧
     Video.RemoteParticipants s' = Video.RemoteParticipants s).
Proof.
  pose proof (Handle_vfs_event_one_enabled s VideoTrack new_disabled) as Hrun.
  unfold Video.GetTexture, FVideoSink_GetTexture in Hrun.
  split.
  - intros Sink Surface HSink HTex. by rewrite HSink, HTex in Hrun.
  - intros Hnone.
    assert (Hmiss : match Video.VideoSinks s !! TrackID VideoTrack with
                    | Some Sink => Texture Sink
                    | None => None
                    end = None).
    { destruct (Video.VideoSinks s !! TrackID VideoTrack) as [Sink|]; [|done].
      by apply Hnone. }
    rewrite Hmiss in Hrun. eexists. split; [exact Hrun|]. cbn.
    split; [by rewrite lookup_insert_eq|].
    split; [intros P HP; by rewrite lookup_insert_ne|done].
Qed.

Lemma Handle_vfs_event_enabled_witness :
  Video.Handle_vfs_event [v1_p1] [] video_v1_textured =
    Some (tt, video_v1_textured, [OnVideoTrackEnabled v1_p1]) ∧
  ∃ s', Video.Handle_vfs_event [v1_p1] [] video_fresh = Some (tt, s', []) ∧
        Video.BufferedEnabledVideoTracks s' !! "p1" = Some [v1_p1].
Proof.
  split.
  - assert (HSink : Video.VideoSinks video_v1_textured !! TrackID v1_p1 =
                    Some (FVideoSink_CreateTexture (FVideoSink_new "v1")))
      by (vm_compute; reflexivity).
    exact (proj1 (Handle_vfs_event_enabled video_v1_textured v1_p1 [])
                 _ _ HSink eq_refl).
  - assert (Hnone : ∀ Sink, Video.VideoSinks video_fresh !! TrackID v1_p1 = Some Sink →
                            Texture Sink = None)
      by (intros Sink HS; vm_compute in HS; discriminate).
    destruct (proj2 (Handle_vfs_event_enabled video_fresh v1_p1 []) Hnone)
      as (s' & Hrun & Hbuf & _).
    exists s'. split; [exact Hrun|exact Hbuf].
Defined.

(** ** Track removed *)

Section removed.
Implicit Types (VideoTrack : FDolbyIOVideoTrack).

Lemma Handle_removed_Some (s : Video.UDolbyIOSubsystem) VideoTrack sink :
  Video.VideoSinks s !! TrackID VideoTrack = Some sink →
  Video.Handle_remote_video_track_removed VideoTrack s =
  Some (tt, Video.set_VideoSinks (delete (TrackID VideoTrack)) s,
        [OnVideoTrackRemoved VideoTrack]).
Proof.
  intros Hsink.
  unfold Video.Handle_remote_video_track_removed, Video.VideoSinks_UnbindAllMaterials.
  op_unfold. rewrite Hsink. cbn. unfold Video.set_VideoSinks. cbn.
  by rewrite delete_insert_eq.
Qed.

Lemma Handle_removed_None (s : Video.UDolbyIOSubsystem) VideoTrack :
  Video.VideoSinks s !! TrackID VideoTrack = None →
  Video.Handle_remote_video_track_removed VideoTrack s = None.
Proof.
  intros Hsink.
  unfold Video.Handle_remote_video_track_removed, Video.VideoSinks_UnbindAllMaterials.
  op_unfold. by rewrite Hsink.
Qed.

Lemma inline_removed_Some (s : Inline.UDolbyIOSubsystem) VideoTrack sink :
  Inline.VideoSinks s !! TrackID VideoTrack = Some sink →
  Inline.remote_video_track_removed VideoTrack s =
  Some (tt, Inline.set_VideoSinks (delete (TrackID VideoTrack)) s,
        [OnVideoTrackRemoved VideoTrack]).
Proof.
  intros Hsink.
  unfold Inline.remote_video_track_removed, Inline.VideoSinks_UnbindAllMaterials.
  op_unfold. rewrite Hsink. cbn. unfold Inline.set_VideoSinks. cbn.
  by rewrite delete_insert_eq.
Qed.

Lemma inline_removed_None (s : Inline.UDolbyIOSubsystem) VideoTrack :
  Inline.VideoSinks s !! TrackID VideoTrack = None →
  Inline.remote_video_track_removed VideoTrack s = None.
Proof.
  intros Hsink.
  unfold Inline.remote_video_track_removed, Inline.VideoSinks_UnbindAllMaterials.
  op_unfold. by rewrite Hsink.
Qed.

Lemma Handle_new_enabled_total (s : Video.UDolbyIOSubsystem) VideoTrack :
  is_Some (Video.Handle_new_enabled VideoTrack s).
Proof.
  unfold Video.Handle_new_enabled, Video.BroadcastVideoTrackEnabled. op_unfold.
  by destruct (Video.GetTexture (TrackID VideoTrack) s).
Qed.

Lemma Handle_new_enabled_loop_total new_enabled (s : Video.UDolbyIOSubsystem) :
  is_Some (for_each new_enabled Video.Handle_new_enabled s).
Proof.
  revert s. induction new_enabled as [|t en IH]; intros s; [done|].
  rewrite for_each_cons.
  destruct (Handle_new_enabled_total s t) as [[[[] s1] l1] H1].
  erewrite op_bind_Some by exact H1.
  by destruct (IH s1) as [[[[] s2] l2] ->].
Qed.

End removed.

(** C3, as the handlers have it: a track-removed event for a track that has
    a video sink broadcasts "track removed" and drops the sink with all its
    material bindings: afterwards the track has no sink, no texture and no
    material, while the sinks of the other tracks and the participant
    records are what they were, in the [Handle] overload and in the inline
    handler alike. For a track without a sink the handler stops at its
    checked lookup and broadcasts nothing. *)
Theorem track_removed_drops_sink
    (VideoTrack : FDolbyIOVideoTrack) :
  (∀ (s : Video.UDolbyIOSubsystem) sink,
     Video.VideoSinks s !! TrackID VideoTrack = Some sink →
     ∃ s',
       Video.Handle_remote_video_track_removed VideoTrack s =
         Some (tt, s', [OnVideoTrackRemoved VideoTrack]) ∧
       Video.VideoSinks s' !! TrackID VideoTrack = None ∧
       Video.GetTexture (TrackID VideoTrack) s' = None ∧
       (∀ Material, ¬ bound_to s' Material (TrackID VideoTrack)) ∧
       (∀ Key, Key ≠ TrackID VideoTrack →
          Video.VideoSinks s' !! Key = Video.VideoSinks s !! Key) ∧
       Video.RemoteParticipants s' = Video.RemoteParticipants s) ∧
  (∀ (s : Inline.UDolbyIOSubsystem) sink,
     Inline.VideoSinks s !! TrackID VideoTrack = Some sink →
     ∃ s',
       Inline.remote_video_track_removed VideoTrack s =
         Some (tt, s', [OnVideoTrackRemoved VideoTrack]) ∧
       Inline.VideoSinks s' !! TrackID VideoTrack = None ∧
       (∀ Key, Key ≠ TrackID VideoTrack →
          Inline.VideoSinks s' !! Key = Inline.VideoSinks s !! Key) ∧
       Inline.RemoteParticipants s' = Inline.RemoteParticipants s) ∧
  (∀ s : Video.UDolbyIOSubsystem,
     Video.VideoSinks s !! TrackID VideoTrack = None →
     Video.Handle_remote_video_track_removed VideoTrack s = None) ∧
  (∀ s : Inline.UDolbyIOSubsystem,
     Inline.VideoSinks s !! TrackID VideoTrack = None →
     Inline.remote_video_track_removed VideoTrack s = None).
Proof.
  split; [|split; [|split]].
  - intros s sink Hsink. eexists. split; [by eapply Handle_removed_Some|]. cbn.
    split; [by rewrite lookup_delete_eq|].
    split; [unfold Video.GetTexture; cbn; by rewrite lookup_delete_eq|].
    split.
    { intros Material (sink' & Hl & _). cbn in Hl. by rewrite lookup_delete_eq in Hl. }
    split; [intros Key HKey; by rewrite lookup_delete_ne|done].
  - intros s sink Hsink. eexists. split; [by eapply inline_removed_Some|]. cbn.
    split; [by rewrite lookup_delete_eq|].
    split; [intros Key HKey; by rewrite lookup_delete_ne|done].
  - intros s. apply Handle_removed_None.
  - intros s. apply inline_removed_None.
Qed.

(** C7, as the handlers have it: a track-removed event runs to completion
    exactly when the track has a video sink, whatever is buffered; without
    one the checked lookup [VideoSinks[TrackID]] fails. The track-added and
    track-enabled handlers always run to completion. *)
Theorem track_removed_needs_sink (VideoTrack : FDolbyIOVideoTrack) :
  (∀ s : Video.UDolbyIOSubsystem,
     is_Some (Video.Handle_remote_video_track_removed VideoTrack s) ↔
     is_Some (Video.VideoSinks s !! TrackID VideoTrack)) ∧
  (∀ s : Inline.UDolbyIOSubsystem,
     is_Some (Inline.remote_video_track_removed VideoTrack s) ↔
     is_Some (Inline.VideoSinks s !! TrackID VideoTrack)) ∧
  (∀ s : Video.UDolbyIOSubsystem,
     is_Some (Video.Handle_remote_video_track_added VideoTrack s)) ∧
  (∀ (s : Video.UDolbyIOSubsystem) new_enabled new_disabled,
     is_Some (Video.Handle_vfs_event new_enabled new_disabled s)) ∧
  (∀ s : Inline.UDolbyIOSubsystem,
     is_Some (Inline.remote_video_track_added VideoTrack s)) ∧
  (∀ (s : Inline.UDolbyIOSubsystem) new_enabled new_disabled,
     is_Some (Inline.vfs_event new_enabled new_disabled s)).
Proof.
  repeat split.
  - intros Hrun. destruct (Video.VideoSinks s !! TrackID VideoTrack) eqn:E; [done|].
    rewrite Handle_removed_None in Hrun by done. by destruct Hrun.
  - intros [sink Hsink]. by erewrite Handle_removed_Some.
  - intros Hrun. destruct (Inline.VideoSinks s !! TrackID VideoTrack) eqn:E; [done|].
    rewrite inline_removed_None in Hrun by done. by destruct Hrun.
  - intros [sink Hsink]. by erewrite inline_removed_Some.
  - intros s. unfold Video.Handle_remote_video_track_added,
      Video.VideoSinks_OnTextureCreated, Video.BroadcastVideoTrackAdded.
    op_unfold. cbn. case_decide; cbn; [|done].
    by rewrite lookup_insert_eq.
  - intros s new_enabled new_disabled. unfold Video.Handle_vfs_event.
    destruct (Handle_new_enabled_loop_total new_enabled s) as [[[[] s1] l1] H1].
    erewrite op_bind_Some by exact H1.
    by rewrite for_each_broadcast.
  - intros s. unfold Inline.remote_video_track_added. op_unfold. cbn.
    by case_decide.
  - intros s new_enabled new_disabled. unfold Inline.vfs_event.
    erewrite op_bind_Some by apply for_each_broadcast.
    by rewrite for_each_broadcast.
Qed.

Lemma track_removed_drops_sink_witness :
  bound_to two_sinks 7 "v1" ∧
  ∃ s', Video.Handle_remote_video_track_removed v1_p1 two_sinks =
          Some (tt, s', [OnVideoTrackRemoved v1_p1]) ∧
        Video.VideoSinks s' !! "v1" = None ∧
        ¬ bound_to s' 7 "v1".
Proof.
  assert (Hsink : Video.VideoSinks two_sinks !! TrackID v1_p1 =
                  Some (FVideoSink_BindMaterial 7 (FVideoSink_new "v1")))
    by (vm_compute; reflexivity).
  split.
  { eexists. split; [exact Hsink|]. cbn. apply elem_of_union_l. by apply elem_of_singleton. }
  destruct (proj1 (track_removed_drops_sink v1_p1) two_sinks _ Hsink)
    as (s' & Hrun & Hgone & _ & Hfree & _).
  exists s'. split; [exact Hrun|]. split; [exact Hgone|exact (Hfree 7)].
Defined.

(** C3 as stated fails: no pending entry is removed. In the [Handle]
    variant a track that is buffered as added and as enabled is still in
    both buffers after its removal; with the inline handlers the removed
    track is announced as added when its participant arrives. *)
Lemma track_removed_counterexample :
  (let r := Video.run [Video.video_track_added_ev v1_p1;
                       Video.vfs_ev [v1_p1] [];
                       Video.video_track_removed_ev v1_p1] video_fresh in
   log_of r = Some [OnVideoTrackRemoved v1_p1] ∧
   (λ s, Video.BufferedAddedVideoTracks s !! "p1") <$> state_of r
     = Some (Some [v1_p1]) ∧
   (λ s, Video.BufferedEnabledVideoTracks s !! "p1") <$> state_of r
     = Some (Some [v1_p1])) ∧
  log_of (Inline.run [Inline.video_track_added_ev v1_p1;
                      Inline.video_track_removed_ev v1_p1;
                      Inline.participant_added_ev p1] (Inline.fresh ∅))
    = Some [OnVideoTrackRemoved v1_p1;
            OnParticipantAdded OnAir p1_info;
            OnVideoTrackAdded v1_p1].
Proof. vm_compute. repeat split; reflexivity. Qed.

Lemma track_removed_needs_sink_witness :
  is_Some (Video.VideoSinks two_sinks !! "v1") ∧
  is_Some (Video.Handle_remote_video_track_removed v1_p1 two_sinks).
Proof.
  assert (Hsink : is_Some (Video.VideoSinks two_sinks !! TrackID v1_p1))
    by (vm_compute; by eexists).
  split; [exact Hsink|].
  exact (proj2 (proj1 (track_removed_needs_sink v1_p1) two_sinks) Hsink).
Defined.

(** C7 as stated fails: a track-removed event for a track that has no sink
    does not run to completion, in either variant; and in the [Handle]
    variant the drain of a participant fails in the same way on a buffered
    track whose sink was removed in the meantime. *)
Lemma track_removed_unknown_counterexample :
  Video.Handle_remote_video_track_removed v1_p1 video_fresh = None ∧
  Inline.remote_video_track_removed v1_p1 (Inline.fresh ∅) = None ∧
  Video.run [Video.video_track_added_ev v1_p1;
             Video.video_track_removed_ev v1_p1;
             Video.participant_known_ev p1_info] video_fresh = None.
Proof. vm_compute. repeat split; reflexivity. Qed.

(** ** Draining the buffered tracks *)

Section drain.
Implicit Types (s : Video.UDolbyIOSubsystem) (t : FDolbyIOVideoTrack).
Implicit Types (l : list FDolbyIOVideoTrack) (P : string).

Lemma replay_log_added_of l log : replay_log l log → added_of log = l.
Proof. induction 1; cbn; by f_equal. Qed.

Lemma replay_log_app l1 l2 log1 log2 :
  replay_log l1 log1 → replay_log l2 log2 → replay_log (l1 ++ l2) (log1 ++ log2).
Proof.
  induction 1 as [|t l log _ IH|t e l log He _ IH]; intros H2; cbn.
  - exact H2.
  - constructor. by apply IH.
  - constructor; [done|]. by apply IH.
Qed.

(** The callback broadcasts "added", then at most one buffered "enabled"
    of the same track, and touches nothing but the enabled buffer. *)
Lemma AddedTrack_callback_spec P t s :
  ∃ s' log,
    Video.AddedTrack_callback P t s = Some (tt, s', log) ∧
    replay_log [t] log ∧
    Video.VideoSinks s' = Video.VideoSinks s ∧
    Video.BufferedAddedVideoTracks s' = Video.BufferedAddedVideoTracks s ∧
    Video.RemoteParticipants s' = Video.RemoteParticipants s.
Proof.
  unfold Video.AddedTrack_callback, Video.BroadcastVideoTrackAdded,
    Video.BroadcastVideoTrackEnabled.
  op_unfold. cbn.
  destruct (Video.BufferedEnabledVideoTracks s !! P) as [en|]; cbn.
  - destruct (list_find _ en) as [[i e]|] eqn:Hfind; cbn.
    + apply list_find_Some in Hfind as (_ & Hid & _).
      destruct (delete i en); cbn; do 2 eexists;
        (split; [reflexivity|]); (split; [|done]);
        by repeat constructor.
    + do 2 eexists. split; [reflexivity|]. split; [|done]. by repeat constructor.
  - do 2 eexists. split; [reflexivity|]. split; [|done]. by repeat constructor.
Qed.

(** What the callback does to the buffered "enabled" tracks: it takes out
    the first one with the track's ID, and drops the participant's array
    when that was its last element; other participants are not touched. *)
Lemma AddedTrack_callback_enabled_buffer P t s s' log :
  Video.AddedTrack_callback P t s = Some (tt, s', log) →
  Video.BufferedEnabledVideoTracks s' =
  match Video.BufferedEnabledVideoTracks s !! P with
  | Some EnabledTracks =>
      match list_find (λ e, TrackID e = TrackID t) EnabledTracks with
      | Some (i, _) =>
          match delete i EnabledTracks with
          | [] => delete P (Video.BufferedEnabledVideoTracks s)
          | rest => <[P := rest]> (Video.BufferedEnabledVideoTracks s)
          end
      | None => Video.BufferedEnabledVideoTracks s
      end
  | None => Video.BufferedEnabledVideoTracks s
  end.
Proof.
  unfold Video.AddedTrack_callback, Video.BroadcastVideoTrackAdded,
    Video.BroadcastVideoTrackEnabled.
  op_unfold. cbn.
  destruct (Video.BufferedEnabledVideoTracks s !! P) as [en|]; cbn;
    [|by intros; simplify_eq].
  destruct (list_find _ en) as [[i e]|]; cbn; [|by intros; simplify_eq].
  destruct (delete i en); cbn; by intros; simplify_eq.
Qed.

Lemma OnTextureCreated_callback_spec P t s sink :
  Video.VideoSinks s !! TrackID t = Some sink →
  ∃ s' log,
    Video.VideoSinks_OnTextureCreated (TrackID t)
      (Video.AddedTrack_callback P t) s = Some (tt, s', log) ∧
    replay_log [t] log ∧
    Video.VideoSinks s' =
      <[TrackID t := FVideoSink_CreateTexture sink]> (Video.VideoSinks s) ∧
    Video.BufferedAddedVideoTracks s' = Video.BufferedAddedVideoTracks s ∧
    Video.RemoteParticipants s' = Video.RemoteParticipants s.
Proof.
  intros Hsink. unfold Video.VideoSinks_OnTextureCreated.
  erewrite op_bind_Some by reflexivity. rewrite Hsink.
  erewrite op_bind_Some by reflexivity.
  destruct (AddedTrack_callback_spec P t
              (Video.set_VideoSinks <[TrackID t := FVideoSink_CreateTexture sink]> s))
    as (s' & log & -> & Hlog & Hsinks & Hbuf & Hrp).
  by exists s', log.
Qed.

(** The loop of [ProcessBufferedVideoTracks]: it runs to completion when
    every track still has its sink, and replays the tracks in array
    order. *)
Lemma drain_loop_spec P l s :
  (∀ t, t ∈ l → is_Some (Video.VideoSinks s !! TrackID t)) →
  ∃ s' log,
    for_each l (λ AddedTrack,
      Video.VideoSinks_OnTextureCreated (TrackID AddedTrack)
        (Video.AddedTrack_callback P AddedTrack)) s = Some (tt, s', log) ∧
    replay_log l log ∧
    (∀ k, is_Some (Video.VideoSinks s' !! k) ↔ is_Some (Video.VideoSinks s !! k)) ∧
    Video.BufferedAddedVideoTracks s' = Video.BufferedAddedVideoTracks s ∧
    Video.RemoteParticipants s' = Video.RemoteParticipants s.
Proof.
  revert s. induction l as [|t l IH]; intros s Hsinks.
  - exists s, []. repeat split; auto. constructor.
  - destruct (Hsinks t) as [sink Hsink]; [left|].
    destruct (OnTextureCreated_callback_spec P t s sink Hsink)
      as (s1 & log1 & Hrun1 & Hlog1 & Hs1 & Hb1 & Hr1).
    assert (Hkeys : ∀ k, is_Some (Video.VideoSinks s1 !! k) ↔
                         is_Some (Video.VideoSinks s !! k)).
    { intros k. rewrite Hs1. destruct (decide (TrackID t = k)) as [<-|].
      - rewrite lookup_insert_eq, Hsink. split; eauto.
      - by rewrite lookup_insert_ne. }
    destruct (IH s1) as (s2 & log2 & Hrun2 & Hlog2 & Hs2 & Hb2 & Hr2).
    { intros t' Ht'. apply Hkeys, Hsinks. by right. }
    exists s2, (log1 ++ log2). rewrite for_each_cons.
    erewrite op_bind_Some by exact Hrun1. rewrite Hrun2.
    split; [done|]. split; [by apply (replay_log_app [t] l)|].
    split; [|split; congruence].
    intros k. by rewrite Hs2, Hkeys.
Qed.

Lemma ProcessBufferedVideoTracks_spec P l s :
  Video.BufferedAddedVideoTracks s !! P = Some l →
  (∀ t, t ∈ l → is_Some (Video.VideoSinks s !! TrackID t)) →
  ∃ s' log,
    Video.ProcessBufferedVideoTracks P s = Some (tt, s', log) ∧
    replay_log l log ∧
    Video.BufferedAddedVideoTracks s' = delete P (Video.BufferedAddedVideoTracks s) ∧
    Video.RemoteParticipants s' = Video.RemoteParticipants s.
Proof.
  intros Hbuf Hsinks. unfold Video.ProcessBufferedVideoTracks.
  erewrite op_bind_Some by reflexivity. rewrite Hbuf.
  destruct (drain_loop_spec P l s Hsinks) as (s1 & log & Hrun & Hlog & _ & Hb & Hr).
  erewrite op_bind_Some by exact Hrun. op_unfold. cbn.
  do 2 eexists. split; [reflexivity|]. rewrite app_nil_r. cbn.
  split; [done|]. by rewrite Hb, Hr.
Qed.

Lemma ProcessBufferedVideoTracks_nothing P s :
  Video.BufferedAddedVideoTracks s !! P = None →
  Video.ProcessBufferedVideoTracks P s = Some (tt, s, []).
Proof.
  intros Hbuf. unfold Video.ProcessBufferedVideoTracks.
  erewrite op_bind_Some by reflexivity. by rewrite Hbuf.
Qed.

End drain.

(** ** Track added and participant known, in either order *)

Section added_known.
Implicit Types (t VideoTrack : FDolbyIOVideoTrack).

Lemma video_run_cons e evs :
  Video.run (e :: evs) = (Video.dispatch e ;; Video.run evs).
Proof. reflexivity. Qed.

Lemma inline_run_cons e evs :
  Inline.run (e :: evs) = (Inline.dispatch e ;; Inline.run evs).
Proof. reflexivity. Qed.

Lemma Handle_added_unknown (s : Video.UDolbyIOSubsystem) t :
  Video.RemoteParticipants s !! ParticipantID t = None →
  Video.Handle_remote_video_track_added t s =
  Some (tt,
        Video.set_BufferedAddedVideoTracks (Video.FindOrAdd_Add (ParticipantID t) t)
          (Video.set_VideoSinks <[TrackID t := FVideoSink_new (TrackID t)]> s),
        []).
Proof.
  intros Hrp. unfold Video.Handle_remote_video_track_added. op_unfold. cbn.
  rewrite Hrp. by rewrite decide_False by (by intros [??]).
Qed.

Lemma Handle_added_known (s : Video.UDolbyIOSubsystem) t :
  is_Some (Video.RemoteParticipants s !! ParticipantID t) →
  Video.Handle_remote_video_track_added t s =
  Some (tt,
        Video.set_VideoSinks
          <[TrackID t := FVideoSink_CreateTexture (FVideoSink_new (TrackID t))]>
          (Video.set_VideoSinks <[TrackID t := FVideoSink_new (TrackID t)]> s),
        [OnVideoTrackAdded t]).
Proof.
  intros Hrp. unfold Video.Handle_remote_video_track_added,
    Video.VideoSinks_OnTextureCreated, Video.BroadcastVideoTrackAdded.
  op_unfold. cbn.
  rewrite decide_True by done. cbn. by rewrite lookup_insert_eq.
Qed.

Lemma OnParticipantKnown_nothing_buffered (s : Video.UDolbyIOSubsystem) Info :
  Video.BufferedAddedVideoTracks s !! UserID Info = None →
  Video.OnParticipantKnown Info s =
  Some (tt, Video.set_RemoteParticipants <[UserID Info := Info]> s, []).
Proof.
  intros Hbuf. unfold Video.OnParticipantKnown.
  erewrite op_bind_Some by reflexivity.
  by rewrite ProcessBufferedVideoTracks_nothing.
Qed.

Lemma OnParticipantKnown_drains (s : Video.UDolbyIOSubsystem) Info l :
  Video.BufferedAddedVideoTracks s !! UserID Info = Some l →
  (∀ t, t ∈ l → is_Some (Video.VideoSinks s !! TrackID t)) →
  ∃ s' log,
    Video.OnParticipantKnown Info s = Some (tt, s', log) ∧
    replay_log l log ∧
    Video.BufferedAddedVideoTracks s' !! UserID Info = None ∧
    Video.RemoteParticipants s' !! UserID Info = Some Info.
Proof.
  intros Hbuf Hsinks. unfold Video.OnParticipantKnown.
  erewrite op_bind_Some by reflexivity.
  destruct (ProcessBufferedVideoTracks_spec (UserID Info) l
              (Video.set_RemoteParticipants <[UserID Info := Info]> s))
    as (s' & log & -> & Hlog & Hb & Hr); [done..|].
  exists s', log. split; [done|]. split; [done|].
  rewrite Hb, Hr. cbn. by rewrite lookup_delete_eq, lookup_insert_eq.
Qed.

Lemma inline_added_unknown (s : Inline.UDolbyIOSubsystem) t :
  Inline.RemoteParticipants s !! ParticipantID t = None →
  Inline.remote_video_track_added t s =
  Some (tt,
        Inline.set_BufferedVideoTracks
          (λ m, <[ParticipantID t := default [] (m !! ParticipantID t) ++ [t]]> m)
          (Inline.set_VideoSinks <[TrackID t := FVideoSink_new (TrackID t)]> s),
        []).
Proof.
  intros Hrp. unfold Inline.remote_video_track_added. op_unfold. cbn.
  rewrite Hrp. by rewrite decide_False by (by intros [??]).
Qed.

Lemma inline_added_known (s : Inline.UDolbyIOSubsystem) t :
  is_Some (Inline.RemoteParticipants s !! ParticipantID t) →
  Inline.remote_video_track_added t s =
  Some (tt, Inline.set_VideoSinks <[TrackID t := FVideoSink_new (TrackID t)]> s,
        [OnVideoTrackAdded t]).
Proof.
  intros Hrp. unfold Inline.remote_video_track_added. op_unfold. cbn.
  by rewrite decide_True by done.
Qed.

(** The inline participant-added handler stores the record, announces the
    participant and replays what was buffered for it, in array order. *)
Lemma inline_participant_added (s : Inline.UDolbyIOSubsystem) p st :
  status p = Some st →
  let Info := ToFDolbyIOParticipantInfo p in
  Inline.remote_participant_added p s =
  Some (tt,
        (if Inline.BufferedVideoTracks s !! user_id p is Some _
         then Inline.set_BufferedVideoTracks (delete (user_id p)) else id)
          (Inline.set_RemoteParticipants <[user_id p := Info]> s),
        OnParticipantAdded (Status Info) Info ::
          (OnVideoTrackAdded <$> default [] (Inline.BufferedVideoTracks s !! user_id p))).
Proof.
  intros Hst. unfold Inline.remote_participant_added. rewrite Hst.
  erewrite op_bind_Some by reflexivity.
  erewrite op_bind_Some by reflexivity.
  erewrite op_bind_Some by reflexivity. cbn.
  destruct (Inline.BufferedVideoTracks s !! user_id p) as [l|]; cbn; [|done].
  erewrite op_bind_Some by apply for_each_broadcast.
  op_unfold. cbn. by rewrite app_nil_r.
Qed.

(** The inline participant-updated handler stores the record and announces
    the update; it does not look at the buffered tracks. *)
Lemma inline_participant_updated (s : Inline.UDolbyIOSubsystem) p st :
  status p = Some st →
  let Info := ToFDolbyIOParticipantInfo p in
  Inline.remote_participant_updated p s =
  Some (tt, Inline.set_RemoteParticipants <[user_id p := Info]> s,
        [OnParticipantUpdated (Status Info) Info]).
Proof.
  intros Hst. unfold Inline.remote_participant_updated. rewrite Hst.
  by erewrite op_bind_Some by reflexivity.
Qed.

End added_known.

(** Take a track and its participant, not known yet and with nothing
    buffered. Whichever of the track-added event and the participant-known
    event comes first, the first of the two broadcasts no "track added", and
    the two together broadcast exactly one, for this track. This holds for
    the [Handle] overload with the drain of [ProcessBufferedVideoTracks],
    and for the inline handlers of the track-added and participant-added
    events. *)
Lemma track_added_once_participant_added (VideoTrack : FDolbyIOVideoTrack) :
  (∀ (s : Video.UDolbyIOSubsystem) (Info : FDolbyIOParticipantInfo),
     UserID Info = ParticipantID VideoTrack →
     Video.RemoteParticipants s !! ParticipantID VideoTrack = None →
     Video.BufferedAddedVideoTracks s !! ParticipantID VideoTrack = None →
     added_of <$> log_of (Video.run [Video.video_track_added_ev VideoTrack] s)
       = Some [] ∧
     added_of <$> log_of (Video.run [Video.participant_known_ev Info] s)
       = Some [] ∧
     added_of <$> log_of (Video.run [Video.video_track_added_ev VideoTrack;
                                     Video.participant_known_ev Info] s)
       = Some [VideoTrack] ∧
     added_of <$> log_of (Video.run [Video.participant_known_ev Info;
                                     Video.video_track_added_ev VideoTrack] s)
       = Some [VideoTrack]) ∧
  (∀ (s : Inline.UDolbyIOSubsystem) (p : participant_info),
     user_id p = ParticipantID VideoTrack →
     is_Some (status p) →
     Inline.RemoteParticipants s !! ParticipantID VideoTrack = None →
     Inline.BufferedVideoTracks s !! ParticipantID VideoTrack = None →
     added_of <$> log_of (Inline.run [Inline.video_track_added_ev VideoTrack] s)
       = Some [] ∧
     added_of <$> log_of (Inline.run [Inline.participant_added_ev p] s)
       = Some [] ∧
     added_of <$> log_of (Inline.run [Inline.video_track_added_ev VideoTrack;
                                      Inline.participant_added_ev p] s)
       = Some [VideoTrack] ∧
     added_of <$> log_of (Inline.run [Inline.participant_added_ev p;
                                      Inline.video_track_added_ev VideoTrack] s)
       = Some [VideoTrack]).
Proof.
  split.
  - intros s Info HP Hrp Hbuf.
    pose proof (Handle_added_unknown s VideoTrack Hrp) as Hadd.
    assert (Hknown : Video.OnParticipantKnown Info s =
              Some (tt, Video.set_RemoteParticipants <[UserID Info := Info]> s, [])).
    { apply OnParticipantKnown_nothing_buffered. by rewrite HP. }
    repeat split.
    + rewrite video_run_cons. cbn [Video.dispatch].
      by erewrite op_bind_Some by exact Hadd.
    + rewrite video_run_cons. cbn [Video.dispatch].
      by erewrite op_bind_Some by exact Hknown.
    + rewrite !video_run_cons. cbn [Video.dispatch].
      erewrite op_bind_Some by exact Hadd.
      edestruct (OnParticipantKnown_drains) as (s2 & log & Hrun & Hlog & _);
        [| |erewrite op_bind_Some by exact Hrun].
      * cbn. unfold Video.FindOrAdd_Add. rewrite HP, Hbuf. apply lookup_insert_eq.
      * cbn. intros t ->%list_elem_of_singleton. by rewrite lookup_insert_eq.
      * cbn. rewrite app_nil_r. f_equal. by apply replay_log_added_of.
    + rewrite !video_run_cons. cbn [Video.dispatch].
      erewrite op_bind_Some by exact Hknown.
      erewrite op_bind_Some.
      2:{ apply Handle_added_known. cbn. by rewrite <- HP, lookup_insert_eq. }
      done.
  - intros s p HP [st Hst] Hrp Hbuf.
    pose proof (inline_added_unknown s VideoTrack Hrp) as Hadd.
    pose proof (inline_participant_added s p st Hst) as Hknown.
    cbn zeta in Hknown. rewrite HP, Hbuf in Hknown. cbn in Hknown.
    repeat split.
    + rewrite inline_run_cons. cbn [Inline.dispatch].
      by erewrite op_bind_Some by exact Hadd.
    + rewrite inline_run_cons. cbn [Inline.dispatch].
      by erewrite op_bind_Some by exact Hknown.
    + rewrite !inline_run_cons. cbn [Inline.dispatch].
      erewrite op_bind_Some by exact Hadd.
      erewrite op_bind_Some by (by eapply inline_participant_added).
      cbn. rewrite HP, Hbuf, lookup_insert_eq. done.
    + rewrite !inline_run_cons. cbn [Inline.dispatch].
      erewrite op_bind_Some by exact Hknown.
      erewrite op_bind_Some.
      2:{ apply inline_added_known. cbn. by rewrite <- HP, lookup_insert_eq. }
      done.
Qed.



(** ** The [Handle] variant keeps "enabled" behind "added" *)

Section enabled_behind_added.
Implicit Types (s : Video.UDolbyIOSubsystem) (t : FDolbyIOVideoTrack).
Implicit Types (seen : gset string) (log : list Notification).

Lemma added_ids_app log1 log2 : added_ids (log1 ++ log2) = added_ids log1 ∪ added_ids log2.
Proof.
  unfold added_ids. rewrite added_of_app, fmap_app. apply list_to_set_app_L.
Qed.

Lemma enabled_follow_added_mono seen seen' log :
  seen ⊆ seen' → enabled_follow_added seen log → enabled_follow_added seen' log.
Proof.
  revert seen seen'. induction log as [|n log IH]; intros seen seen' Hsub; [done|].
  destruct n; cbn; eauto.
  - apply IH. by apply union_mono_l.
  - intros [Hmem Hrest]. split; [by apply Hsub|by eapply IH].
Qed.

Lemma enabled_follow_added_app seen log1 log2 :
  enabled_follow_added seen log1 →
  enabled_follow_added (added_ids log1 ∪ seen) log2 →
  enabled_follow_added seen (log1 ++ log2).
Proof.
  revert seen. induction log1 as [|n log1 IH]; intros seen H1 H2.
  - cbn. eapply enabled_follow_added_mono; [|exact H2].
    unfold added_ids. cbn. by rewrite union_empty_l_L.
  - destruct n; cbn in *;
      try (apply IH; [done|exact H2]).
    + apply IH; [done|].
      eapply enabled_follow_added_mono; [|exact H2].
      unfold added_ids, added_of. intros x. rewrite !elem_of_union. tauto.
    + destruct H1 as [Hmem H1]. split; [done|]. by apply IH.
Qed.

Lemma replay_log_enabled_follow_added l log seen :
  replay_log l log → enabled_follow_added seen log.
Proof.
  intros H. revert seen. induction H as [|t l log _ IH|t e l log He _ IH];
    intros seen; cbn; [done|apply IH|].
  split; [|apply IH]. rewrite He. apply elem_of_union_l. by apply elem_of_singleton.
Qed.

Lemma replay_log_added_ids l log :
  replay_log l log → added_ids log = list_to_set (TrackID <$> l).
Proof. intros H. unfold added_ids. by rewrite (replay_log_added_of _ _ H). Qed.

Lemma drain_loop_inv P l s s' log seen :
  textures_announced s seen →
  for_each l (λ AddedTrack,
    Video.VideoSinks_OnTextureCreated (TrackID AddedTrack)
      (Video.AddedTrack_callback P AddedTrack)) s = Some (tt, s', log) →
  replay_log l log ∧ textures_announced s' (added_ids log ∪ seen).
Proof.
  revert s log seen. induction l as [|t l IH]; intros s log seen Hann Hrun.
  - op_inv Hrun. split; [constructor|].
    unfold added_ids. cbn. by rewrite union_empty_l_L.
  - rewrite for_each_cons in Hrun.
    apply op_bind_inv in Hrun as ([] & s1 & l1 & l2 & H1 & H2 & ->).
    destruct (Video.VideoSinks s !! TrackID t) as [sink|] eqn:Hsink; last first.
    { unfold Video.VideoSinks_OnTextureCreated in H1. revert H1. op_unfold.
      by rewrite Hsink. }
    destruct (OnTextureCreated_callback_spec P t s sink Hsink)
      as (s1' & l1' & Hrun1 & Hlog1 & Hs1 & _).
    rewrite Hrun1 in H1. simplify_eq.
    assert (Hann1 : textures_announced s1 (added_ids l1 ∪ seen)).
    { intros k sink' Hk Htex. rewrite Hs1 in Hk.
      rewrite (replay_log_added_ids _ _ Hlog1). cbn.
      destruct (decide (TrackID t = k)) as [Heq|Hne].
      { rewrite <- Heq, union_empty_r_L. by apply elem_of_union_l, elem_of_singleton. }
      rewrite lookup_insert_ne in Hk by done.
      apply elem_of_union_r. by eapply Hann. }
    destruct (IH s1 l2 _ Hann1 H2) as [Hlog2 Hann2].
    split; [by apply (replay_log_app [t] l)|].
    by rewrite added_ids_app, (union_comm_L (added_ids l1)), <- union_assoc_L.
Qed.

Lemma enabled_loop_inv new_enabled s s' log seen :
  textures_announced s seen →
  for_each new_enabled Video.Handle_new_enabled s = Some (tt, s', log) →
  enabled_follow_added seen log ∧ added_of log = [] ∧
  Video.VideoSinks s' = Video.VideoSinks s.
Proof.
  revert s log. induction new_enabled as [|t en IH]; intros s log Hann Hrun.
  - by op_inv Hrun.
  - rewrite for_each_cons in Hrun.
    apply op_bind_inv in Hrun as ([] & s1 & l1 & l2 & H1 & H2 & ->).
    unfold Video.Handle_new_enabled, Video.BroadcastVideoTrackEnabled in H1.
    revert H1. op_unfold. cbn.
    destruct (Video.GetTexture (TrackID t) s) as [tex|] eqn:Htex; intros H1;
      simplify_eq.
    + destruct (IH _ _ Hann H2) as (Hlog & Hadded & Hsinks).
      split; [|done]. cbn. split; [|done].
      unfold Video.GetTexture in Htex.
      destruct (Video.VideoSinks s1 !! TrackID t) as [sink|] eqn:Hsink; [|done].
      eapply Hann; [done|]. unfold FVideoSink_GetTexture in Htex. by rewrite Htex.
    + destruct (IH (Video.set_BufferedEnabledVideoTracks _ s) l2 Hann H2)
        as (Hlog & Hadded & Hsinks). done.
Qed.

Lemma no_enabled_follow_added {A} (f : A → Notification) (l : list A) seen :
  (∀ x t, f x ≠ OnVideoTrackAdded t ∧ f x ≠ OnVideoTrackEnabled t) →
  enabled_follow_added seen (f <$> l) ∧ added_of (f <$> l) = [].
Proof.
  intros Hf. induction l as [|x l [IH1 IH2]]; [done|]. cbn.
  destruct (f x) eqn:E; try done; by edestruct (Hf x) as [? ?].
Qed.

Lemma dispatch_inv e s s' log seen :
  textures_announced s seen →
  Video.dispatch e s = Some (tt, s', log) →
  enabled_follow_added seen log ∧ textures_announced s' (added_ids log ∪ seen).
Proof.
  intros Hann Hrun. destruct e as [Info|t|t|new_enabled new_disabled]; cbn in Hrun.
  - unfold Video.OnParticipantKnown in Hrun.
    apply op_bind_inv in Hrun as ([] & s1 & l1 & l2 & H1 & H2 & ->).
    revert H1. op_unfold. intros H1. simplify_eq. cbn.
    unfold Video.ProcessBufferedVideoTracks in H2.
    apply op_bind_inv in H2 as (s1 & s1' & l1 & l3 & H1 & H2 & ->).
    revert H1. op_unfold. intros H1. simplify_eq. cbn in *.
    destruct (Video.BufferedAddedVideoTracks s !! UserID Info) as [l|].
    + apply op_bind_inv in H2 as ([] & s2 & l2 & l4 & H2 & H4 & ->).
      revert H4. op_unfold. intros H4. simplify_eq. rewrite app_nil_r.
      eapply drain_loop_inv in H2 as [Hlog Hann2]; [|exact Hann].
      split; [by eapply replay_log_enabled_follow_added|exact Hann2].
    + revert H2. op_unfold. intros H2. simplify_eq. split; [done|].
      unfold added_ids. cbn. by rewrite union_empty_l_L.
  - destruct (decide (is_Some (Video.RemoteParticipants s !! ParticipantID t)))
      as [Hk|Hu].
    + rewrite Handle_added_known in Hrun by done. simplify_eq.
      split; [done|]. intros k sink Hk' Htex. cbn in Hk'.
      unfold added_ids. cbn.
      destruct (decide (TrackID t = k)) as [<-|Hne]; [set_solver|].
      rewrite !lookup_insert_ne in Hk' by done.
      apply elem_of_union_r. by eapply Hann.
    + rewrite Handle_added_unknown in Hrun
        by (by apply eq_None_not_Some).
      simplify_eq. split; [done|]. intros k sink Hk' Htex. cbn in Hk'.
      unfold added_ids. cbn. rewrite union_empty_l_L.
      destruct (decide (TrackID t = k)) as [<-|Hne].
      * rewrite lookup_insert_eq in Hk'. simplify_eq. by destruct Htex.
      * rewrite lookup_insert_ne in Hk' by done. by eapply Hann.
  - destruct (Video.VideoSinks s !! TrackID t) as [sink|] eqn:Hsink.
    + erewrite Handle_removed_Some in Hrun by done. simplify_eq.
      split; [done|]. intros k sink' Hk' Htex. cbn in Hk'.
      unfold added_ids. cbn. rewrite union_empty_l_L.
      apply lookup_delete_Some in Hk' as [_ Hk']. by eapply Hann.
    + by rewrite Handle_removed_None in Hrun.
  - unfold Video.Handle_vfs_event in Hrun.
    apply op_bind_inv in Hrun as ([] & s1 & l1 & l2 & H1 & H2 & ->).
    rewrite for_each_broadcast in H2. simplify_eq.
    destruct (enabled_loop_inv _ _ _ _ _ Hann H1) as (Hlog & Hadded & Hsinks).
    destruct (no_enabled_follow_added OnVideoTrackDisabled new_disabled
                (added_ids l1 ∪ seen)) as [Hdis Hnone]; [done|].
    split; [by apply enabled_follow_added_app|].
    intros k sink Hk Htex. rewrite Hsinks in Hk.
    apply elem_of_union_r. by eapply Hann.
Qed.

(** In the [Handle] variant, started with no texture on any sink, a
    session that runs to completion never broadcasts "track enabled" for a
    track ID before a "track added" for it. (The sink's
    [OnTextureCreated] is the modelled one.) *)
Lemma Handle_variant_enabled_follow_added evs s s' log seen :
  textures_announced s seen →
  Video.run evs s = Some (tt, s', log) →
  enabled_follow_added seen log ∧ textures_announced s' (added_ids log ∪ seen).
Proof.
  revert s log seen. induction evs as [|e evs IH]; intros s log seen Hann Hrun.
  - op_inv Hrun. split; [done|].
    unfold added_ids. cbn. by rewrite union_empty_l_L.
  - rewrite video_run_cons in Hrun.
    apply op_bind_inv in Hrun as ([] & s1 & l1 & l2 & H1 & H2 & ->).
    destruct (dispatch_inv _ _ _ _ _ Hann H1) as [Hlog1 Hann1].
    destruct (IH _ _ _ Hann1 H2) as [Hlog2 Hann2].
    split; [by apply enabled_follow_added_app|].
    by rewrite added_ids_app, (union_comm_L (added_ids l1)), <- union_assoc_L.
Qed.

End enabled_behind_added.

(** ** The inline handlers against the reconciler's rules *)

(** The inline [vfs_event] handler forwards every enabled and every
    disabled track, whatever the state of the subsystem. *)
Lemma inline_vfs_event_forwards_all (s : Inline.UDolbyIOSubsystem)
    (new_enabled new_disabled : list FDolbyIOVideoTrack) :
  Inline.vfs_event new_enabled new_disabled s =
  Some (tt, s, (OnVideoTrackEnabled <$> new_enabled) ++
               (OnVideoTrackDisabled <$> new_disabled)).
Proof.
  unfold Inline.vfs_event.
  erewrite op_bind_Some by apply for_each_broadcast.
  by rewrite for_each_broadcast.
Qed.

(** C1 at its failing input: a track of participant p1 and the
    participant-updated event that makes p1 known, in the two orders. When
    the update comes first the track is announced once; when the track
    comes first it is buffered, the update leaves it there, and no "track
    added" is broadcast although the track has arrived and the
    participant is known. *)
Theorem track_added_lost_when_update_comes_last :
  added_of <$> log_of (Inline.run [Inline.participant_updated_ev p1;
                                   Inline.video_track_added_ev v1_p1]
                         (Inline.fresh ∅))
    = Some [v1_p1] ∧
  (let r := Inline.run [Inline.video_track_added_ev v1_p1;
                        Inline.participant_updated_ev p1] (Inline.fresh ∅) in
   added_of <$> log_of r = Some [] ∧
   (λ s, Inline.RemoteParticipants s !! "p1") <$> state_of r = Some (Some p1_info) ∧
   (λ s, Inline.BufferedVideoTracks s !! "p1") <$> state_of r = Some (Some [v1_p1])).
Proof. vm_compute. repeat split; reflexivity. Qed.

(** C4 at its failing input: the SDK announces participant p1 without a
    status, which the participant-added handler drops; a track of p1 arrives
    and is buffered; then p1 becomes known through a participant-updated
    event. The handler stores the record and announces the update, the
    buffered track stays where it is and no "track added" is broadcast. The
    participant-added handler, given the event that the update handler got,
    drains the buffer. *)
Theorem participant_updated_does_not_drain :
  let r := Inline.run [Inline.participant_added_ev p1_no_status;
                       Inline.video_track_added_ev v1_p1;
                       Inline.participant_updated_ev p1] (Inline.fresh ∅) in
  log_of r = Some [OnParticipantUpdated OnAir p1_info] ∧
  (λ s, Inline.RemoteParticipants s !! "p1") <$> state_of r = Some (Some p1_info) ∧
  (λ s, Inline.BufferedVideoTracks s !! "p1") <$> state_of r = Some (Some [v1_p1]) ∧
  log_of (Inline.run [Inline.participant_added_ev p1_no_status;
                      Inline.video_track_added_ev v1_p1;
                      Inline.participant_added_ev p1] (Inline.fresh ∅))
    = Some [OnParticipantAdded OnAir p1_info; OnVideoTrackAdded v1_p1].
Proof. vm_compute. repeat split; reflexivity. Qed.

(** C2 at its failing input: the inline [vfs_event] handler broadcasts
    "track enabled" for a track of which nothing has been announced yet;
    its "track added" comes later. *)
Theorem inline_enabled_before_added :
  log_of (Inline.run [Inline.vfs_ev [v1_p1] []] (Inline.fresh ∅))
    = Some [OnVideoTrackEnabled v1_p1] ∧
  log_of (Inline.run [Inline.vfs_ev [v1_p1] [];
                      Inline.participant_added_ev p1;
                      Inline.video_track_added_ev v1_p1] (Inline.fresh ∅))
    = Some [OnVideoTrackEnabled v1_p1;
            OnParticipantAdded OnAir p1_info;
            OnVideoTrackAdded v1_p1].
Proof. vm_compute. repeat split; reflexivity. Qed.

(** ** The scenario of the specification, on the [Handle] variant *)

(** "OnTrackAdded({Track:v1, Participant:p1}) → no emission.
    OnParticipantKnown(p1) → emits VideoTrackAdded(v1,p1).
    OnTrackEnabled({v1,p1}) with surface ready → emits
    VideoTrackEnabled(v1,p1)." *)
Example specification_scenario :
  log_of (Video.run [Video.video_track_added_ev v1_p1] video_fresh) = Some [] ∧
  log_of (Video.run [Video.video_track_added_ev v1_p1;
                     Video.participant_known_ev p1_info] video_fresh)
    = Some [OnVideoTrackAdded v1_p1] ∧
  log_of (Video.run [Video.video_track_added_ev v1_p1;
                     Video.participant_known_ev p1_info;
                     Video.vfs_ev [v1_p1] []] video_fresh)
    = Some [OnVideoTrackAdded v1_p1; OnVideoTrackEnabled v1_p1].
Proof. vm_compute. repeat split; reflexivity. Qed.

(** An "enabled" that comes before the participant is known is held back
    and replayed right behind the track's "added". *)
Example enabled_replayed_behind_added :
  log_of (Video.run [Video.video_track_added_ev v1_p1;
                     Video.vfs_ev [v1_p1] [];
                     Video.video_track_added_ev v2_p1;
                     Video.participant_known_ev p1_info] video_fresh)
    = Some [OnVideoTrackAdded v1_p1; OnVideoTrackEnabled v1_p1;
            OnVideoTrackAdded v2_p1] ∧
  enabled_follow_added ∅ [OnVideoTrackAdded v1_p1; OnVideoTrackEnabled v1_p1;
                          OnVideoTrackAdded v2_p1].
Proof.
  split; [vm_compute; reflexivity|].
  cbn. split; [|done]. apply elem_of_union_l. by apply elem_of_singleton.
Qed.

(** ** The connection-state machine *)

Section connection.
Import SdkAccess.
Implicit Types (s : FSdkAccess) (c : Command).

Lemma coherent_constructed : coherent constructed.
Proof. left. by split; [|left]. Qed.

Lemma exec_coherent c s : coherent s → coherent (after (exec c s)).
Proof.
  unfold coherent.
  destruct s as [sdk st demo handlers fl].
  intros [[? [?|?]]|[[[?|?] ?]|[? ?]]]; simplify_eq/=;
    destruct c as [created|Conf User| | | | | |user_id]; cbn;
    unfold Connect, ConnectToDemoConference, Disconnect, MuteInput, MuteOutput,
      UpdateViewPoint, IsConnected, IsDisconnected; cbn;
    repeat (case_bool_decide || destruct sdk || cbn); naive_solver.
Qed.

Lemma run_coherent cs : coherent (run cs constructed).
Proof.
  induction cs as [|c cs IH] using rev_ind; [apply coherent_constructed|].
  unfold run. rewrite foldl_snoc. by apply exec_coherent.
Qed.

Lemma exec_along c s :
  coherent s → (∀ created, c ≠ cmd_Initialize created) →
  along (Status s) (Status (after (exec c s))).
Proof.
  unfold coherent, along.
  destruct s as [sdk st demo handlers fl].
  intros [[? [?|?]]|[[[?|?] ?]|[? ?]]] Hc; simplify_eq/=;
    destruct c as [created|Conf User| | | | | |user_id]; cbn;
    try (by destruct (Hc created));
    unfold Connect, ConnectToDemoConference, Disconnect, MuteInput, MuteOutput,
      UpdateViewPoint, IsConnected, IsDisconnected; cbn;
    repeat (case_bool_decide || destruct sdk || cbn); naive_solver.
Qed.

Lemma Connect_proceeds s Conf User :
  Sdk s = true → Conf ≠ "" → User ≠ "" → Status s = Disconnected →
  Status (after (Connect Conf User s)) = Connecting ∧
  calls (Connect Conf User s) ≠ [] ∧
  thrown (Connect Conf User s) = None.
Proof.
  intros Hsdk HC HU Hst. unfold Connect, IsDisconnected. rewrite Hsdk, Hst. cbn.
  rewrite (bool_decide_eq_false_2 (Conf = "")) by done.
  rewrite (bool_decide_eq_false_2 (User = "")) by done.
  rewrite (bool_decide_eq_true_2 (Disconnected = Disconnected)) by done. cbn.
  unfold ConnectToDemoConference. by destruct (bool_decide (Conf = "demo")).
Qed.

Lemma Connect_refuses s Conf User :
  ¬ (Sdk s = true ∧ Conf ≠ "" ∧ User ≠ "" ∧ Status s = Disconnected) →
  after (Connect Conf User s) = s ∧
  calls (Connect Conf User s) = [] ∧
  is_Some (thrown (Connect Conf User s)).
Proof.
  intros Hnot. unfold Connect, IsDisconnected.
  destruct (Sdk s) eqn:Hsdk; cbn; [|done].
  destruct (decide (Conf = "")) as [->|HC]; [done|].
  rewrite (bool_decide_eq_false_2 (Conf = "")) by done.
  destruct (decide (User = "")) as [->|HU]; [done|].
  rewrite (bool_decide_eq_false_2 (User = "")) by done. cbn.
  destruct (decide (Status s = Disconnected)) as [Hst|Hst]; [by destruct Hnot|].
  by rewrite (bool_decide_eq_false_2 (Status s = Disconnected)) by done.
Qed.

Lemma not_connected_no_op s :
  Status s ≠ Connected →
  Disconnect s = returned s [] ∧
  (∀ bIsMuted, MuteInput bIsMuted s = returned s []) ∧
  (∀ bIsMuted, MuteOutput bIsMuted s = returned s []) ∧
  UpdateViewPoint s = returned s [].
Proof.
  intros Hst. unfold Disconnect, MuteInput, MuteOutput, UpdateViewPoint, IsConnected.
  by rewrite bool_decide_eq_false_2.
Qed.

End connection.

(** C8, as the code has it. [Connect] goes on, into connecting and with calls
    to the SDK, exactly when the SDK is there, both names are non-empty and
    the status is disconnected; otherwise it throws, and the object is left
    as it was. [Disconnect], [MuteInput], [MuteOutput] and [UpdateViewPoint]
    return at once, with no call to the SDK, unless the status is connected.
    From the constructed object on, every step other than [Initialize]
    moves the status along disconnected → connecting → connected →
    disconnecting → disconnected or leaves it; [Initialize] puts it back to
    disconnected from wherever it is. *)
Theorem connection_guards :
  (∀ s Conf User,
     SdkAccess.Sdk s = true → Conf ≠ "" → User ≠ "" →
     SdkAccess.Status s = SdkAccess.Disconnected →
     SdkAccess.Status (SdkAccess.after (SdkAccess.Connect Conf User s))
       = SdkAccess.Connecting ∧
     SdkAccess.calls (SdkAccess.Connect Conf User s) ≠ [] ∧
     SdkAccess.thrown (SdkAccess.Connect Conf User s) = None) ∧
  (∀ s Conf User,
     ¬ (SdkAccess.Sdk s = true ∧ Conf ≠ "" ∧ User ≠ "" ∧
        SdkAccess.Status s = SdkAccess.Disconnected) →
     SdkAccess.after (SdkAccess.Connect Conf User s) = s ∧
     SdkAccess.calls (SdkAccess.Connect Conf User s) = [] ∧
     is_Some (SdkAccess.thrown (SdkAccess.Connect Conf User s))) ∧
  (∀ s,
     SdkAccess.Status s ≠ SdkAccess.Connected →
     SdkAccess.Disconnect s = SdkAccess.returned s [] ∧
     (∀ bIsMuted, SdkAccess.MuteInput bIsMuted s = SdkAccess.returned s []) ∧
     (∀ bIsMuted, SdkAccess.MuteOutput bIsMuted s = SdkAccess.returned s []) ∧
     SdkAccess.UpdateViewPoint s = SdkAccess.returned s []) ∧
  (∀ cs c,
     (∀ created, c ≠ SdkAccess.cmd_Initialize created) →
     SdkAccess.along
       (SdkAccess.Status (SdkAccess.run cs SdkAccess.constructed))
       (SdkAccess.Status
          (SdkAccess.after (SdkAccess.exec c (SdkAccess.run cs SdkAccess.constructed))))) ∧
  (∀ s created,
     SdkAccess.Status (SdkAccess.after (SdkAccess.Initialize created s))
       = SdkAccess.Disconnected).
Proof.
  split; [|split; [|split; [|split]]].
  - apply Connect_proceeds.
  - apply Connect_refuses.
  - apply not_connected_no_op.
  - intros cs c Hc. apply exec_along; [apply run_coherent|done].
  - done.
Qed.

Lemma connection_guards_witness :
  let s := SdkAccess.run [SdkAccess.cmd_Initialize true] SdkAccess.constructed in
  SdkAccess.Status (SdkAccess.after (SdkAccess.Connect "unreal" "unreal" s))
    = SdkAccess.Connecting ∧
  SdkAccess.Disconnect s = SdkAccess.returned s [] ∧
  SdkAccess.along (SdkAccess.Status s)
    (SdkAccess.Status (SdkAccess.after (SdkAccess.exec SdkAccess.cmd_Disconnect s))).
Proof.
  destruct connection_guards as (Hgo & _ & Hnoop & Halong & _).
  cbv zeta. split; [|split].
  - refine (proj1 (Hgo _ "unreal" "unreal" _ _ _ _)); done.
  - refine (proj1 (Hnoop _ _)). done.
  - apply (Halong [SdkAccess.cmd_Initialize true] SdkAccess.cmd_Disconnect). done.
Defined.

(** C8 as stated fails: [Initialize] on a connected object puts the status
    to disconnected in one step, past disconnecting. *)
Lemma connection_cycle_counterexample :
  let s := SdkAccess.run [SdkAccess.cmd_Initialize true;
                          SdkAccess.cmd_Connect "unreal" "unreal";
                          SdkAccess.sdk_completes] SdkAccess.constructed in
  SdkAccess.Status s = SdkAccess.Connected ∧
  SdkAccess.Status (SdkAccess.after (SdkAccess.exec (SdkAccess.cmd_Initialize true) s))
    = SdkAccess.Disconnected ∧
  ¬ SdkAccess.along SdkAccess.Connected SdkAccess.Disconnected.
Proof.
  cbv zeta. split; [reflexivity|]. split; [reflexivity|].
  unfold SdkAccess.along. intros [?|?]; discriminate.
Qed.

(** * Beyond the claims *)

(** ** The inline handlers over a whole session *)

Section inline_session.
Implicit Types (s : Inline.UDolbyIOSubsystem) (t : FDolbyIOVideoTrack).
Implicit Types (e : Inline.Event) (log : list Notification).

Lemma buffer_keyed_FindOrAdd_Add m t :
  buffer_keyed m →
  buffer_keyed (<[ParticipantID t := default [] (m !! ParticipantID t) ++ [t]]> m).
Proof.
  intros Hm P l Hl. destruct (decide (ParticipantID t = P)) as [<-|Hne].
  - rewrite lookup_insert_eq in Hl. injection Hl as <-. split.
    + by destruct (default [] (m !! ParticipantID t)).
    + intros t' [Ht'| ->%list_elem_of_singleton]%elem_of_app; [|done].
      destruct (m !! ParticipantID t) as [l0|] eqn:E; cbn in Ht'.
      * by apply (Hm _ _ E).
      * by apply elem_of_nil in Ht'.
  - rewrite lookup_insert_ne in Hl by done. by apply Hm.
Qed.

Lemma buffer_keyed_delete m P : buffer_keyed m → buffer_keyed (delete P m).
Proof. intros Hm P' l [_ Hl]%lookup_delete_Some. by apply Hm. Qed.

Lemma buffer_keyed_empty : buffer_keyed ∅.
Proof. intros P l Hl. by rewrite lookup_empty in Hl. Qed.

(** What one inline handler does, whichever it is: the participants it
    knew stay known, the buffer stays well keyed, and a track is announced
    only for a participant it knows afterwards. *)
Lemma inline_dispatch_effect e s s' log :
  Inline.dispatch e s = Some (tt, s', log) →
  (∀ P, is_Some (Inline.RemoteParticipants s !! P) →
        is_Some (Inline.RemoteParticipants s' !! P)) ∧
  (buffer_keyed (Inline.BufferedVideoTracks s) →
   buffer_keyed (Inline.BufferedVideoTracks s') ∧
   ∀ t, t ∈ added_of log →
        is_Some (Inline.RemoteParticipants s' !! ParticipantID t)).
Proof.
  intros Hrun. destruct e as [p|p|t|t|en dis]; cbn in Hrun.
  - destruct (status p) as [st|] eqn:Hst.
    + rewrite (inline_participant_added s p st Hst) in Hrun. cbn zeta in Hrun.
      simplify_eq. split.
      { intros P HP. destruct (Inline.BufferedVideoTracks s !! user_id p); cbn;
          (destruct (decide (user_id p = P)) as [<-|];
             [by rewrite lookup_insert_eq|by rewrite lookup_insert_ne]). }
      intros Hbuf. split.
      { destruct (Inline.BufferedVideoTracks s !! user_id p); cbn; [|done].
        by apply buffer_keyed_delete. }
      intros t Ht. cbn in Ht. rewrite added_of_fmap_added in Ht.
      destruct (Inline.BufferedVideoTracks s !! user_id p) as [l|] eqn:E; cbn in *.
      * destruct (Hbuf _ _ E) as [_ Hkey]. rewrite (Hkey t Ht).
        by rewrite lookup_insert_eq.
      * by apply elem_of_nil in Ht.
    + unfold Inline.remote_participant_added in Hrun. rewrite Hst in Hrun.
      op_inv Hrun. split; [done|]. intros Hbuf. split; [done|].
      intros t Ht. by apply elem_of_nil in Ht.
  - destruct (status p) as [st|] eqn:Hst.
    + rewrite (inline_participant_updated s p st Hst) in Hrun. cbn zeta in Hrun.
      simplify_eq. split.
      { intros P HP. cbn. destruct (decide (user_id p = P)) as [<-|];
          [by rewrite lookup_insert_eq|by rewrite lookup_insert_ne]. }
      intros Hbuf. split; [done|]. intros t Ht. by apply elem_of_nil in Ht.
    + unfold Inline.remote_participant_updated in Hrun. rewrite Hst in Hrun.
      op_inv Hrun. split; [done|]. intros Hbuf. split; [done|].
      intros t Ht. by apply elem_of_nil in Ht.
  - destruct (decide (is_Some (Inline.RemoteParticipants s !! ParticipantID t)))
      as [Hk|Hu].
    + rewrite inline_added_known in Hrun by done. simplify_eq.
      split; [done|]. intros Hbuf. split; [done|].
      by intros t' ->%list_elem_of_singleton.
    + rewrite inline_added_unknown in Hrun by (by apply eq_None_not_Some).
      simplify_eq. split; [done|]. intros Hbuf. split.
      * by apply buffer_keyed_FindOrAdd_Add.
      * intros t' Ht'. by apply elem_of_nil in Ht'.
  - destruct (Inline.VideoSinks s !! TrackID t) as [sink|] eqn:Hsink.
    + erewrite inline_removed_Some in Hrun by done. simplify_eq.
      split; [done|]. intros Hbuf. split; [done|].
      intros t' Ht'. by apply elem_of_nil in Ht'.
    + by rewrite inline_removed_None in Hrun.
  - rewrite inline_vfs_event_forwards_all in Hrun. simplify_eq.
    split; [done|]. intros Hbuf. split; [done|].
    intros t Ht. exfalso. revert Ht. unfold added_of. rewrite omap_app.
    intros [Ht|Ht]%elem_of_app; apply list_elem_of_omap in Ht as (n & Hn & Hsome);
      apply list_elem_of_fmap in Hn as (t' & -> & _); done.
Qed.

Lemma inline_run_effect evs s s' log :
  Inline.run evs s = Some (tt, s', log) →
  (∀ P, is_Some (Inline.RemoteParticipants s !! P) →
        is_Some (Inline.RemoteParticipants s' !! P)) ∧
  (buffer_keyed (Inline.BufferedVideoTracks s) →
   buffer_keyed (Inline.BufferedVideoTracks s') ∧
   ∀ t, t ∈ added_of log →
        is_Some (Inline.RemoteParticipants s' !! ParticipantID t)).
Proof.
  revert s log. induction evs as [|e evs IH]; intros s log Hrun.
  - op_inv Hrun. split; [done|]. intros Hbuf. split; [done|].
    intros t Ht. by apply elem_of_nil in Ht.
  - rewrite inline_run_cons in Hrun.
    apply op_bind_inv in Hrun as ([] & s1 & l1 & l2 & H1 & H2 & ->).
    destruct (inline_dispatch_effect _ _ _ _ H1) as [Hmono1 Hinv1].
    destruct (IH _ _ H2) as [Hmono2 Hinv2].
    split; [by eauto|]. intros Hbuf.
    destruct (Hinv1 Hbuf) as [Hbuf1 Hadd1]. destruct (Hinv2 Hbuf1) as [Hbuf2 Hadd2].
    split; [done|]. intros t. rewrite added_of_app.
    intros [Ht|Ht]%elem_of_app; eauto.
Qed.

End inline_session.

(** X1: over a session of the inline handlers that runs to completion, a
    participant that is known stays known: no handler takes a record out of
    [RemoteParticipants]. *)
Theorem inline_participants_stay_known
    (evs : list Inline.Event) (s s' : Inline.UDolbyIOSubsystem)
    (log : list Notification) (P : string) :
  Inline.run evs s = Some (tt, s', log) →
  is_Some (Inline.RemoteParticipants s !! P) →
  is_Some (Inline.RemoteParticipants s' !! P).
Proof. intros Hrun. by apply (inline_run_effect _ _ _ _ Hrun). Qed.

(** X2: the inline handlers keep the buffer well keyed: started so, after
    any session every buffered array is non-empty and holds only tracks of
    the participant it is stored under. *)
Theorem inline_buffer_stays_keyed
    (evs : list Inline.Event) (s s' : Inline.UDolbyIOSubsystem)
    (log : list Notification) :
  buffer_keyed (Inline.BufferedVideoTracks s) →
  Inline.run evs s = Some (tt, s', log) →
  buffer_keyed (Inline.BufferedVideoTracks s').
Proof. intros Hbuf Hrun. by apply (inline_run_effect _ _ _ _ Hrun). Qed.

(** X3: with the inline handlers, every "track added" of a session is for
    a participant that is known when the session ends; a track is never
    announced for a participant the subsystem has no record of. *)
Theorem inline_added_only_for_known
    (evs : list Inline.Event) (s s' : Inline.UDolbyIOSubsystem)
    (log : list Notification) (t : FDolbyIOVideoTrack) :
  buffer_keyed (Inline.BufferedVideoTracks s) →
  Inline.run evs s = Some (tt, s', log) →
  t ∈ added_of log →
  is_Some (Inline.RemoteParticipants s' !! ParticipantID t).
Proof. intros Hbuf Hrun. by apply (inline_run_effect _ _ _ _ Hrun). Qed.

Lemma inline_participants_stay_known_witness :
  ∃ s' log,
    Inline.run inline_sample_session inline_p1_known = Some (tt, s', log) ∧
    is_Some (Inline.RemoteParticipants s' !! "p1").
Proof.
  eexists _, _. split; [vm_compute; reflexivity|].
  eapply (inline_participants_stay_known inline_sample_session inline_p1_known);
    [vm_compute; reflexivity|].
  vm_compute. by eexists.
Defined.

Lemma inline_buffer_stays_keyed_witness :
  ∃ s' log,
    Inline.run [Inline.video_track_added_ev v1_p1;
                Inline.video_track_added_ev v2_p1] (Inline.fresh ∅)
      = Some (tt, s', log) ∧
    buffer_keyed (Inline.BufferedVideoTracks s').
Proof.
  eexists _, _. split; [vm_compute; reflexivity|].
  eapply (inline_buffer_stays_keyed
            [Inline.video_track_added_ev v1_p1; Inline.video_track_added_ev v2_p1]
            (Inline.fresh ∅));
    [apply buffer_keyed_empty|vm_compute; reflexivity].
Defined.

Lemma inline_added_only_for_known_witness :
  ∃ s' log,
    Inline.run inline_sample_session (Inline.fresh ∅) = Some (tt, s', log) ∧
    v1_p1 ∈ added_of log ∧
    is_Some (Inline.RemoteParticipants s' !! ParticipantID v1_p1).
Proof.
  eexists _, _. split; [vm_compute; reflexivity|].
  assert (Hin : v1_p1 ∈ [v1_p1; v2_p1]) by left.
  split; [exact Hin|].
  eapply (inline_added_only_for_known inline_sample_session (Inline.fresh ∅));
    [apply buffer_keyed_empty|vm_compute; reflexivity|exact Hin].
Defined.

(** X4: a participant that is announced twice has its buffered tracks
    announced once: the first participant-added event (with a status)
    replays exactly what is buffered for the participant and empties the
    buffer, the second replays nothing. *)
Theorem inline_buffered_tracks_announced_once
    (s : Inline.UDolbyIOSubsystem) (p : participant_info) :
  is_Some (status p) →
  added_of <$> log_of (Inline.run [Inline.participant_added_ev p] s)
    = Some (default [] (Inline.BufferedVideoTracks s !! user_id p)) ∧
  added_of <$> log_of (Inline.run [Inline.participant_added_ev p;
                                   Inline.participant_added_ev p] s)
    = Some (default [] (Inline.BufferedVideoTracks s !! user_id p)).
Proof.
  intros [st Hst]. split.
  - rewrite inline_run_cons. cbn [Inline.dispatch].
    erewrite op_bind_Some by (by eapply inline_participant_added).
    cbn. rewrite app_nil_r. f_equal. apply added_of_fmap_added.
  - rewrite !inline_run_cons. cbn [Inline.dispatch].
    erewrite op_bind_Some by (by eapply inline_participant_added).
    erewrite op_bind_Some by (by eapply inline_participant_added).
    cbn. f_equal.
    destruct (Inline.BufferedVideoTracks s !! user_id p) as [l|] eqn:E; cbn.
    + rewrite lookup_delete_eq. cbn.
      etrans; [exact (added_of_app _ _)|].
      rewrite added_of_fmap_added. cbn. apply app_nil_r.
    + by rewrite E.
Qed.

Lemma inline_buffered_tracks_announced_once_witness :
  ∃ s log1,
    Inline.run [Inline.video_track_added_ev v1_p1;
                Inline.video_track_added_ev v2_p1] (Inline.fresh ∅)
      = Some (tt, s, log1) ∧
    added_of <$> log_of (Inline.run [Inline.participant_added_ev p1;
                                     Inline.participant_added_ev p1] s)
      = Some [v1_p1; v2_p1].
Proof.
  eexists _, _. split; [vm_compute; reflexivity|].
  refine (proj2 (inline_buffered_tracks_announced_once _ p1 _)).
  by eexists.
Defined.

(** ** The [Handle] variant over a whole session *)

Section video_session.
Implicit Types (s : Video.UDolbyIOSubsystem) (t : FDolbyIOVideoTrack).
Implicit Types (m : Material) (tid k P : string) (log : list Notification).

Lemma UnbindMaterial_lookup s m tid k :
  Video.VideoSinks (Video.UnbindMaterial m tid s) !! k =
  (λ sink, if decide (k = tid) then FVideoSink_UnbindMaterial m sink else sink)
    <$> Video.VideoSinks s !! k.
Proof.
  unfold Video.UnbindMaterial.
  destruct (Video.VideoSinks s !! tid) as [sink|] eqn:E; cbn.
  - destruct (decide (k = tid)) as [->|Hne].
    + by rewrite lookup_insert_eq, E.
    + rewrite lookup_insert_ne by done. by destruct (Video.VideoSinks s !! k).
  - destruct (decide (k = tid)) as [->|Hne]; [by rewrite E|].
    by destruct (Video.VideoSinks s !! k).
Qed.

Lemma UnbindMaterial_bound_to s m m' tid k :
  bound_to (Video.UnbindMaterial m tid s) m' k ↔
  bound_to s m' k ∧ ¬ (m' = m ∧ k = tid).
Proof.
  unfold bound_to. setoid_rewrite UnbindMaterial_lookup. split.
  - intros (sink & Hl & Hmem).
    destruct (Video.VideoSinks s !! k) as [sink0|]; simplify_eq/=.
    case_decide; cbn in Hmem.
    + apply elem_of_difference in Hmem as [Hmem Hne]. split; [by eexists|].
      intros [-> _]. apply Hne. by apply elem_of_singleton.
    + split; [by eexists|]. by intros [_ ?].
  - intros [(sink & Hl & Hmem) Hnot]. rewrite Hl. cbn.
    eexists; split; [done|]. case_decide; cbn; [|done].
    apply elem_of_difference. split; [done|].
    intros ->%elem_of_singleton. by apply Hnot.
Qed.

Lemma exclusive_shrink s s' :
  (∀ m k, bound_to s' m k → bound_to s m k) → exclusive s → exclusive s'.
Proof. intros Hsub Hex m k1 k2 H1 H2. eapply Hex; eauto. Qed.

Lemma sinks_retextured_refl sinks : sinks_retextured sinks sinks.
Proof. intros k. by left. Qed.

Lemma CreateTexture_idemp sink :
  FVideoSink_CreateTexture (FVideoSink_CreateTexture sink) = FVideoSink_CreateTexture sink.
Proof. done. Qed.

Lemma sinks_retextured_trans sinks1 sinks2 sinks3 :
  sinks_retextured sinks1 sinks2 → sinks_retextured sinks2 sinks3 →
  sinks_retextured sinks1 sinks3.
Proof.
  intros H12 H23 k.
  destruct (H23 k) as [E23|(sink2 & E2 & E3)].
  - rewrite E23. apply H12.
  - destruct (H12 k) as [E12|(sink1 & E1 & E2')].
    + right. exists sink2. by rewrite <- E12.
    + right. exists sink1. split; [done|]. rewrite E3.
      rewrite E2' in E2. injection E2 as <-. by rewrite CreateTexture_idemp.
Qed.

Lemma sinks_retextured_insert sinks tid sink :
  sinks !! tid = Some sink →
  sinks_retextured sinks (<[tid := FVideoSink_CreateTexture sink]> sinks).
Proof.
  intros Hsink k. destruct (decide (tid = k)) as [<-|Hne].
  - right. exists sink. by rewrite lookup_insert_eq.
  - left. by rewrite lookup_insert_ne.
Qed.

Lemma sinks_retextured_keyed sinks sinks' :
  sinks_retextured sinks sinks' → sinks_keyed sinks → sinks_keyed sinks'.
Proof.
  intros Hre Hk k sink' Hl. destruct (Hre k) as [E|(sink & E & E')].
  - apply Hk. by rewrite <- E.
  - rewrite E' in Hl. injection Hl as <-. cbn. by apply Hk.
Qed.

Lemma sinks_retextured_bound_to s s' m k :
  sinks_retextured (Video.VideoSinks s) (Video.VideoSinks s') →
  bound_to s' m k → bound_to s m k.
Proof.
  intros Hre (sink' & Hl & Hmem). destruct (Hre k) as [E|(sink & E & E')].
  - exists sink'. by rewrite <- E.
  - rewrite E' in Hl. injection Hl as <-. by exists sink.
Qed.

Lemma buffer_keyed_shrink (b : gmap string (list FDolbyIOVideoTrack)) P l rest :
  buffer_keyed b → b !! P = Some l → rest ≠ [] → rest ⊆ l →
  buffer_keyed (<[P := rest]> b).
Proof.
  intros Hb Hl Hne Hsub P' l' Hl'. destruct (decide (P = P')) as [<-|HP].
  - rewrite lookup_insert_eq in Hl'. injection Hl' as <-. split; [done|].
    intros t Ht. apply (Hb _ _ Hl). by apply Hsub.
  - rewrite lookup_insert_ne in Hl' by done. by apply Hb.
Qed.

Lemma AddedTrack_callback_keeps_keyed P t s s' log :
  Video.AddedTrack_callback P t s = Some (tt, s', log) →
  buffer_keyed (Video.BufferedEnabledVideoTracks s) →
  buffer_keyed (Video.BufferedEnabledVideoTracks s').
Proof.
  intros Hrun Hb. rewrite (AddedTrack_callback_enabled_buffer _ _ _ _ _ Hrun).
  destruct (Video.BufferedEnabledVideoTracks s !! P) as [en|] eqn:E; [|done].
  destruct (list_find _ en) as [[i e]|]; [|done].
  destruct (delete i en) as [|x rest] eqn:Hdel.
  - by apply buffer_keyed_delete.
  - eapply buffer_keyed_shrink; [done..|].
    rewrite <- Hdel. apply sublist_subseteq, sublist_delete.
Qed.

(** The loop of [ProcessBufferedVideoTracks], when it runs to completion:
    it creates textures and takes replayed tracks out of the enabled
    buffer, and touches nothing else. *)
Lemma drain_loop_effect P l s s' log :
  for_each l (λ AddedTrack,
    Video.VideoSinks_OnTextureCreated (TrackID AddedTrack)
      (Video.AddedTrack_callback P AddedTrack)) s = Some (tt, s', log) →
  sinks_retextured (Video.VideoSinks s) (Video.VideoSinks s') ∧
  Video.BufferedAddedVideoTracks s' = Video.BufferedAddedVideoTracks s ∧
  Video.RemoteParticipants s' = Video.RemoteParticipants s ∧
  (buffer_keyed (Video.BufferedEnabledVideoTracks s) →
   buffer_keyed (Video.BufferedEnabledVideoTracks s')).
Proof.
  revert s log. induction l as [|t l IH]; intros s log Hrun.
  - op_inv Hrun. split; [apply sinks_retextured_refl|done].
  - rewrite for_each_cons in Hrun.
    apply op_bind_inv in Hrun as ([] & s1 & l1 & l2 & H1 & H2 & ->).
    unfold Video.VideoSinks_OnTextureCreated in H1.
    apply op_bind_inv in H1 as (s0 & s0' & l0 & l0' & Hget & H1 & ->).
    op_inv Hget.
    destruct (Video.VideoSinks s0' !! TrackID t) as [sink|] eqn:Hsink; [|done].
    apply op_bind_inv in H1 as ([] & sm & lm & lm' & Hmod & Hcb & ->).
    op_inv Hmod.
    destruct (AddedTrack_callback_spec P t
                (Video.set_VideoSinks
                   <[TrackID t := FVideoSink_CreateTexture sink]> s0'))
      as (s1' & log1 & Hcb' & _ & Hs1 & Hb1 & Hr1).
    rewrite Hcb in Hcb'. injection Hcb' as <- <-.
    pose proof (AddedTrack_callback_keeps_keyed _ _ _ _ _ Hcb) as Hen1.
    destruct (IH _ _ H2) as (Hre2 & Hb2 & Hr2 & Hen2).
    split; [|split; [|split]].
    + eapply sinks_retextured_trans; [|exact Hre2].
      rewrite Hs1. cbn. by apply sinks_retextured_insert.
    + by rewrite Hb2, Hb1.
    + by rewrite Hr2, Hr1.
    + intros Hen. apply Hen2, Hen1. exact Hen.
Qed.

Lemma enabled_loop_effect new_enabled s s' log :
  for_each new_enabled Video.Handle_new_enabled s = Some (tt, s', log) →
  Video.VideoSinks s' = Video.VideoSinks s ∧
  Video.BufferedAddedVideoTracks s' = Video.BufferedAddedVideoTracks s ∧
  Video.RemoteParticipants s' = Video.RemoteParticipants s ∧
  (buffer_keyed (Video.BufferedEnabledVideoTracks s) →
   buffer_keyed (Video.BufferedEnabledVideoTracks s')).
Proof.
  revert s log. induction new_enabled as [|t en IH]; intros s log Hrun.
  - by op_inv Hrun.
  - rewrite for_each_cons in Hrun.
    apply op_bind_inv in Hrun as ([] & s1 & l1 & l2 & H1 & H2 & ->).
    destruct (IH _ _ H2) as (Hs2 & Hb2 & Hr2 & Hen2).
    unfold Video.Handle_new_enabled, Video.BroadcastVideoTrackEnabled in H1.
    revert H1. op_unfold. cbn.
    destruct (Video.GetTexture (TrackID t) s); intros H1; simplify_eq; [done|].
    cbn in Hs2, Hb2, Hr2, Hen2. split; [done|]. split; [done|]. split; [done|].
    intros Hen. apply Hen2. unfold Video.FindOrAdd_Add.
    by apply buffer_keyed_FindOrAdd_Add.
Qed.

Lemma sinks_keyed_fmap (f : string → FVideoSink → FVideoSink) sinks sinks' :
  (∀ k sink, VideoTrackID (f k sink) = VideoTrackID sink) →
  (∀ k, sinks' !! k = f k <$> sinks !! k) →
  sinks_keyed sinks → sinks_keyed sinks'.
Proof.
  intros Hf Hl Hk k sink' Hs'. rewrite Hl in Hs'.
  destruct (sinks !! k) as [sink|] eqn:E; simplify_eq/=.
  rewrite Hf. by apply Hk.
Qed.

Lemma sinks_keyed_insert sinks sink :
  sinks_keyed sinks → sinks_keyed (<[VideoTrackID sink := sink]> sinks).
Proof.
  intros Hk k sink' Hl. destruct (decide (VideoTrackID sink = k)) as [<-|Hne].
  - rewrite lookup_insert_eq in Hl. by injection Hl as <-.
  - rewrite lookup_insert_ne in Hl by done. by apply Hk.
Qed.

Lemma sinks_keyed_delete sinks k : sinks_keyed sinks → sinks_keyed (delete k sinks).
Proof. intros Hk k' sink [_ Hl]%lookup_delete_Some. by apply Hk. Qed.

(** A track-added event leaves no material on the sink of its track. *)
Lemma Handle_added_bound_to s s' log t m k :
  Video.Handle_remote_video_track_added t s = Some (tt, s', log) →
  bound_to s' m k → k ≠ TrackID t ∧ bound_to s m k.
Proof.
  intros Hrun (sink & Hl & Hmem).
  destruct (decide (is_Some (Video.RemoteParticipants s !! ParticipantID t)))
    as [Hk|Hu].
  - rewrite Handle_added_known in Hrun by done. simplify_eq. cbn in Hl.
    destruct (decide (TrackID t = k)) as [<-|Hne].
    + rewrite lookup_insert_eq in Hl. injection Hl as <-.
      by apply elem_of_empty in Hmem.
    + rewrite !lookup_insert_ne in Hl by done. split; [done|]. by exists sink.
  - rewrite Handle_added_unknown in Hrun by (by apply eq_None_not_Some).
    simplify_eq. cbn in Hl.
    destruct (decide (TrackID t = k)) as [<-|Hne].
    + rewrite lookup_insert_eq in Hl. injection Hl as <-.
      by apply elem_of_empty in Hmem.
    + rewrite lookup_insert_ne in Hl by done. split; [done|]. by exists sink.
Qed.

Lemma BindMaterial_only_sinks s m tid :
  Video.BufferedAddedVideoTracks (Video.BindMaterial m tid s)
    = Video.BufferedAddedVideoTracks s ∧
  Video.BufferedEnabledVideoTracks (Video.BindMaterial m tid s)
    = Video.BufferedEnabledVideoTracks s ∧
  Video.RemoteParticipants (Video.BindMaterial m tid s) = Video.RemoteParticipants s.
Proof. unfold Video.BindMaterial. cbn. by destruct (map_imap _ _ !! tid). Qed.

Lemma UnbindMaterial_only_sinks s m tid :
  Video.BufferedAddedVideoTracks (Video.UnbindMaterial m tid s)
    = Video.BufferedAddedVideoTracks s ∧
  Video.BufferedEnabledVideoTracks (Video.UnbindMaterial m tid s)
    = Video.BufferedEnabledVideoTracks s ∧
  Video.RemoteParticipants (Video.UnbindMaterial m tid s) = Video.RemoteParticipants s.
Proof. unfold Video.UnbindMaterial. by destruct (Video.VideoSinks s !! tid). Qed.

Lemma perform_effect a s s' log :
  perform a s = Some (tt, s', log) →
  (sinks_keyed (Video.VideoSinks s) → sinks_keyed (Video.VideoSinks s')) ∧
  (buffer_keyed (Video.BufferedAddedVideoTracks s) →
   buffer_keyed (Video.BufferedAddedVideoTracks s')) ∧
  (buffer_keyed (Video.BufferedEnabledVideoTracks s) →
   buffer_keyed (Video.BufferedEnabledVideoTracks s')) ∧
  (exclusive s → exclusive s').
Proof.
  intros Hrun. destruct a as [[Info|t|t|new_enabled new_disabled]|m tid|m tid];
    cbn in Hrun.
  - unfold Video.OnParticipantKnown in Hrun.
    apply op_bind_inv in Hrun as ([] & sa & la & lb & Hmod & Hrun & ->).
    op_inv Hmod. unfold Video.ProcessBufferedVideoTracks in Hrun.
    apply op_bind_inv in Hrun as (sb & sc & lc & ld & Hget & Hrun & ->).
    op_inv Hget. cbn in Hrun.
    destruct (Video.BufferedAddedVideoTracks s !! UserID Info) as [l|].
    + apply op_bind_inv in Hrun as ([] & sd & le & lf & Hloop & Hmod & ->).
      op_inv Hmod.
      apply drain_loop_effect in Hloop as (Hre & Hb & Hr & Hen). cbn in *.
      split; [by apply sinks_retextured_keyed|].
      split; [rewrite Hb; by apply buffer_keyed_delete|].
      split; [done|].
      apply exclusive_shrink. intros m k Hb'.
      eapply (sinks_retextured_bound_to
                (Video.set_RemoteParticipants <[UserID Info := Info]> s)
                (Video.set_BufferedAddedVideoTracks (delete (UserID Info)) sd));
        done.
    + by op_inv Hrun.
  - split; [|split; [|split]].
    + intros Hk.
      destruct (decide (is_Some (Video.RemoteParticipants s !! ParticipantID t)))
        as [Hkn|Hu].
      * rewrite Handle_added_known in Hrun by done. simplify_eq. cbn.
        rewrite insert_insert_eq.
        by apply (sinks_keyed_insert _
                    (FVideoSink_CreateTexture (FVideoSink_new (TrackID t)))).
      * rewrite Handle_added_unknown in Hrun by (by apply eq_None_not_Some).
        simplify_eq. cbn.
        by apply (sinks_keyed_insert _ (FVideoSink_new (TrackID t))).
    + intros Hb.
      destruct (decide (is_Some (Video.RemoteParticipants s !! ParticipantID t)))
        as [Hkn|Hu].
      * rewrite Handle_added_known in Hrun by done. by simplify_eq.
      * rewrite Handle_added_unknown in Hrun by (by apply eq_None_not_Some).
        simplify_eq. cbn. unfold Video.FindOrAdd_Add.
        by apply buffer_keyed_FindOrAdd_Add.
    + intros Hb.
      destruct (decide (is_Some (Video.RemoteParticipants s !! ParticipantID t)))
        as [Hkn|Hu].
      * rewrite Handle_added_known in Hrun by done. by simplify_eq.
      * rewrite Handle_added_unknown in Hrun by (by apply eq_None_not_Some).
        by simplify_eq.
    + apply exclusive_shrink. intros m k Hb.
      by eapply Handle_added_bound_to.
  - destruct (Video.VideoSinks s !! TrackID t) as [sink|] eqn:Hsink;
      [|by rewrite Handle_removed_None in Hrun].
    erewrite Handle_removed_Some in Hrun by done. simplify_eq. cbn.
    split; [by apply sinks_keyed_delete|]. split; [done|]. split; [done|].
    apply exclusive_shrink. intros m k (sink' & Hl & Hmem). cbn in Hl.
    apply lookup_delete_Some in Hl as [_ Hl]. by exists sink'.
  - unfold Video.Handle_vfs_event in Hrun.
    apply op_bind_inv in Hrun as ([] & s1 & l1 & l2 & H1 & H2 & ->).
    rewrite for_each_broadcast in H2. simplify_eq.
    apply enabled_loop_effect in H1 as (Hs & Hb & Hr & Hen).
    split; [by rewrite Hs|]. split; [by rewrite Hb|]. split; [done|].
    apply exclusive_shrink. intros m k (sink & Hl & Hmem).
    rewrite Hs in Hl. by exists sink.
  - op_inv Hrun. destruct (BindMaterial_only_sinks s m tid) as (Ea & Ee & _).
    rewrite Ea, Ee.
    split; [|split; [done|split; [done|]]].
    + eapply (sinks_keyed_fmap
                (λ k sink, if decide (k = tid) then FVideoSink_BindMaterial m sink
                           else FVideoSink_UnbindMaterial m sink)).
      * intros k sink. by case_decide.
      * intros k. apply BindMaterial_lookup.
    + intros Hex m' k1 k2 H1 H2.
      destruct (decide (m' = m)) as [->|Hne].
      * apply BindMaterial_bound_to in H1, H2. congruence.
      * apply BindMaterial_bound_to_other in H1, H2; [|done..]. eauto.
  - op_inv Hrun. destruct (UnbindMaterial_only_sinks s m tid) as (Ea & Ee & _).
    rewrite Ea, Ee.
    split; [|split; [done|split; [done|]]].
    + eapply (sinks_keyed_fmap
                (λ k sink, if decide (k = tid) then FVideoSink_UnbindMaterial m sink
                           else sink)).
      * intros k sink. by case_decide.
      * intros k. apply UnbindMaterial_lookup.
    + apply exclusive_shrink. intros m' k Hb.
      by apply UnbindMaterial_bound_to in Hb as [Hb _].
Qed.

Lemma session_effect acts s s' log :
  session acts s = Some (tt, s', log) →
  (sinks_keyed (Video.VideoSinks s) → sinks_keyed (Video.VideoSinks s')) ∧
  (buffer_keyed (Video.BufferedAddedVideoTracks s) →
   buffer_keyed (Video.BufferedAddedVideoTracks s')) ∧
  (buffer_keyed (Video.BufferedEnabledVideoTracks s) →
   buffer_keyed (Video.BufferedEnabledVideoTracks s')) ∧
  (exclusive s → exclusive s').
Proof.
  revert s log. induction acts as [|a acts IH]; intros s log Hrun.
  - by op_inv Hrun.
  - unfold session in Hrun. rewrite for_each_cons in Hrun.
    apply op_bind_inv in Hrun as ([] & s1 & l1 & l2 & H1 & H2 & ->).
    destruct (perform_effect _ _ _ _ H1) as (A1 & B1 & C1 & D1).
    destruct (IH _ _ H2) as (A2 & B2 & C2 & D2).
    split; [|split; [|split]]; intros H0.
    + by apply A2, A1.
    + by apply B2, B1.
    + by apply C2, C1.
    + by apply D2, D1.
Qed.

End video_session.

(** X5: in the [Handle] variant no material ever shows on the sinks of two
    tracks: started from a state where that is so, every session of SDK
    events and of [BindMaterial] and [UnbindMaterial] calls ends in one. *)
Theorem session_keeps_materials_exclusive
    (acts : list Action) (s s' : Video.UDolbyIOSubsystem) (log : list Notification) :
  exclusive s →
  session acts s = Some (tt, s', log) →
  exclusive s'.
Proof. intros Hex Hrun. by apply (session_effect _ _ _ _ Hrun). Qed.

(** X6: in the [Handle] variant both buffers stay well keyed over a
    session: every array of [BufferedAddedVideoTracks] and of
    [BufferedEnabledVideoTracks] is non-empty (the drain removes the array it
    empties) and holds only tracks of the participant it is stored under. *)
Theorem session_keeps_buffers_keyed
    (acts : list Action) (s s' : Video.UDolbyIOSubsystem) (log : list Notification) :
  buffer_keyed (Video.BufferedAddedVideoTracks s) →
  buffer_keyed (Video.BufferedEnabledVideoTracks s) →
  session acts s = Some (tt, s', log) →
  buffer_keyed (Video.BufferedAddedVideoTracks s') ∧
  buffer_keyed (Video.BufferedEnabledVideoTracks s').
Proof.
  intros Ha He Hrun. destruct (session_effect _ _ _ _ Hrun) as (_ & A & E & _).
  by split; [apply A|apply E].
Qed.

(** X7: in the [Handle] variant every sink is stored under the track ID it
    was created with, over any session: [GetTexture(ID)] and the material
    calls always reach the sink that the SDK feeds with the frames of that
    track. *)
Theorem session_keeps_sinks_keyed
    (acts : list Action) (s s' : Video.UDolbyIOSubsystem) (log : list Notification) :
  sinks_keyed (Video.VideoSinks s) →
  session acts s = Some (tt, s', log) →
  sinks_keyed (Video.VideoSinks s').
Proof. intros Hk Hrun. by apply (session_effect _ _ _ _ Hrun). Qed.

Lemma video_fresh_well_formed :
  exclusive video_fresh ∧ sinks_keyed (Video.VideoSinks video_fresh) ∧
  buffer_keyed (Video.BufferedAddedVideoTracks video_fresh) ∧
  buffer_keyed (Video.BufferedEnabledVideoTracks video_fresh).
Proof.
  split; [|split; [|split]].
  - intros m k1 k2 (sink & Hl & _). cbn in Hl. by rewrite lookup_empty in Hl.
  - intros k sink Hl. cbn in Hl. by rewrite lookup_empty in Hl.
  - apply buffer_keyed_empty.
  - apply buffer_keyed_empty.
Qed.

Lemma session_keeps_materials_exclusive_witness :
  ∃ s' log,
    session video_sample_session video_fresh = Some (tt, s', log) ∧ exclusive s'.
Proof.
  eexists _, _. split; [vm_compute; reflexivity|].
  eapply (session_keeps_materials_exclusive video_sample_session video_fresh);
    [apply video_fresh_well_formed|vm_compute; reflexivity].
Defined.

Lemma session_keeps_buffers_keyed_witness :
  ∃ s' log,
    session video_sample_session video_fresh = Some (tt, s', log) ∧
    buffer_keyed (Video.BufferedAddedVideoTracks s') ∧
    buffer_keyed (Video.BufferedEnabledVideoTracks s').
Proof.
  eexists _, _. split; [vm_compute; reflexivity|].
  eapply (session_keeps_buffers_keyed video_sample_session video_fresh);
    [apply video_fresh_well_formed..|vm_compute; reflexivity].
Defined.

Lemma session_keeps_sinks_keyed_witness :
  ∃ s' log,
    session video_sample_session video_fresh = Some (tt, s', log) ∧
    sinks_keyed (Video.VideoSinks s').
Proof.
  eexists _, _. split; [vm_compute; reflexivity|].
  eapply (session_keeps_sinks_keyed video_sample_session video_fresh);
    [apply video_fresh_well_formed|vm_compute; reflexivity].
Defined.

(** ** Materials: what binding and unbinding do *)

(** X8: after [BindMaterial(Material, VideoTrackID)] the material shows on
    the sink of [VideoTrackID] exactly when that track has a sink, and on no
    other; where any other material shows is unchanged. *)
Theorem BindMaterial_bindings
    (s : Video.UDolbyIOSubsystem) (Material Other : Material)
    (VideoTrackID Key : string) :
  (bound_to (Video.BindMaterial Material VideoTrackID s) Material Key ↔
   Key = VideoTrackID ∧ is_Some (Video.VideoSinks s !! VideoTrackID)) ∧
  (Other ≠ Material →
   bound_to (Video.BindMaterial Material VideoTrackID s) Other Key ↔
   bound_to s Other Key).
Proof.
  split; [|apply BindMaterial_bound_to_other].
  split.
  - intros Hb. pose proof (BindMaterial_bound_to _ _ _ _ Hb) as ->.
    split; [done|]. destruct Hb as (sink & Hl & _).
    rewrite BindMaterial_lookup in Hl.
    by destruct (Video.VideoSinks s !! VideoTrackID).
  - intros [-> [sink Hsink]].
    exists (FVideoSink_BindMaterial Material sink). split.
    + rewrite BindMaterial_lookup, Hsink. cbn. by rewrite decide_True.
    + cbn. by apply elem_of_union_l, elem_of_singleton.
Qed.

Lemma BindMaterial_bindings_witness :
  bound_to (Video.BindMaterial 7 "v2" two_sinks) 7 "v2" ∧
  (bound_to (Video.BindMaterial 8 "v2" two_sinks) 7 "v1" ↔ bound_to two_sinks 7 "v1").
Proof.
  split.
  - apply (proj1 (BindMaterial_bindings two_sinks 7 7 "v2" "v2")).
    split; [done|]. vm_compute. by eexists.
  - apply (proj2 (BindMaterial_bindings two_sinks 8 7 "v2" "v1")). done.
Defined.

(** X9: [UnbindMaterial(Material, VideoTrackID)] takes the material off
    the sink of [VideoTrackID] and does nothing else: a material that shows
    on another sink stays there, and so does every other material. *)
Theorem UnbindMaterial_bindings
    (s : Video.UDolbyIOSubsystem) (Material Other : Material)
    (VideoTrackID Key : string) :
  bound_to (Video.UnbindMaterial Material VideoTrackID s) Other Key ↔
  bound_to s Other Key ∧ ¬ (Other = Material ∧ Key = VideoTrackID).
Proof. apply UnbindMaterial_bound_to. Qed.

(** X10: binding a material that shows nowhere and unbinding it from the
    same track again gives back the subsystem as it was. *)
Theorem Bind_then_Unbind_restores
    (s : Video.UDolbyIOSubsystem) (Material : Material) (VideoTrackID : string) :
  (∀ Key, ¬ bound_to s Material Key) →
  Video.UnbindMaterial Material VideoTrackID
    (Video.BindMaterial Material VideoTrackID s) = s.
Proof.
  intros Hfree.
  assert (Hsinks :
    Video.VideoSinks (Video.UnbindMaterial Material VideoTrackID
                        (Video.BindMaterial Material VideoTrackID s))
    = Video.VideoSinks s).
  { apply map_eq. intros k. rewrite UnbindMaterial_lookup, BindMaterial_lookup.
    destruct (Video.VideoSinks s !! k) as [sink|] eqn:E; [|done]. cbn. f_equal.
    assert (Hnot : Material ∉ Materials sink).
    { intros Hmem. apply (Hfree k). by exists sink. }
    destruct sink as [vid tex mats]. cbn in Hnot.
    destruct (decide (k = VideoTrackID)); cbn;
      unfold FVideoSink_UnbindMaterial, FVideoSink_BindMaterial; cbn; f_equal.
    - apply set_eq. intros x.
      rewrite elem_of_difference, elem_of_union, elem_of_singleton.
      split; [by intros [[?|?] ?]|]. intros Hx. split; [by right|]. by intros ->.
    - apply set_eq. intros x. rewrite elem_of_difference, elem_of_singleton.
      split; [by intros [? ?]|]. intros Hx. split; [done|]. by intros ->. }
  destruct (UnbindMaterial_only_sinks (Video.BindMaterial Material VideoTrackID s)
              Material VideoTrackID) as (Ea & Ee & Er).
  destruct (BindMaterial_only_sinks s Material VideoTrackID) as (Ea' & Ee' & Er').
  destruct s as [rp sinks ba be].
  destruct (Video.UnbindMaterial _ _ _) as [rp' sinks' ba' be'].
  cbn in *. congruence.
Qed.

Lemma Bind_then_Unbind_restores_witness :
  Video.UnbindMaterial 8 "v2" (Video.BindMaterial 8 "v2" two_sinks) = two_sinks.
Proof.
  apply Bind_then_Unbind_restores.
  intros k (sink & Hl & Hmem). cbn in Hl.
  destruct (decide (k = "v1")) as [->|Hk1].
  - rewrite lookup_insert_eq in Hl. injection Hl as <-. cbn in Hmem.
    apply elem_of_union in Hmem as [Hmem%elem_of_singleton|Hmem]; [done|].
    by apply elem_of_empty in Hmem.
  - rewrite lookup_insert_ne in Hl by done.
    destruct (decide (k = "v2")) as [->|Hk2].
    + rewrite lookup_singleton_eq in Hl. injection Hl as <-.
      by apply elem_of_empty in Hmem.
    + by rewrite lookup_singleton_ne in Hl by done.
Defined.

(** X11: the material calls never touch a texture: [GetTexture] returns
    for every track what it returned before [BindMaterial] or
    [UnbindMaterial]. *)
Theorem material_calls_keep_textures
    (s : Video.UDolbyIOSubsystem) (Material : Material)
    (VideoTrackID Key : string) :
  Video.GetTexture Key (Video.BindMaterial Material VideoTrackID s)
    = Video.GetTexture Key s ∧
  Video.GetTexture Key (Video.UnbindMaterial Material VideoTrackID s)
    = Video.GetTexture Key s.
Proof.
  unfold Video.GetTexture. rewrite BindMaterial_lookup, UnbindMaterial_lookup.
  destruct (Video.VideoSinks s !! Key) as [sink|]; cbn; [|done].
  by case_decide.
Qed.

(** ** Track events and the sinks *)

(** X12: a track-added event always runs to completion and gives the track
    a new sink: whatever was bound to a sink under that track ID before, no
    material shows on it afterwards, and the bindings of the other tracks
    are as they were. *)
Theorem track_added_starts_unbound
    (s : Video.UDolbyIOSubsystem) (VideoTrack : FDolbyIOVideoTrack) :
  ∃ s' log,
    Video.Handle_remote_video_track_added VideoTrack s = Some (tt, s', log) ∧
    (∀ Material, ¬ bound_to s' Material (TrackID VideoTrack)) ∧
    (∀ Material Key, Key ≠ TrackID VideoTrack →
       bound_to s' Material Key ↔ bound_to s Material Key).
Proof.
  destruct (decide (is_Some (Video.RemoteParticipants s !! ParticipantID VideoTrack)))
    as [Hk|Hu].
  - eexists _, _. split; [by apply Handle_added_known|]. split.
    + intros m (sink & Hl & Hmem). cbn in Hl. rewrite lookup_insert_eq in Hl.
      injection Hl as <-. by apply elem_of_empty in Hmem.
    + intros m k Hne. unfold bound_to. cbn.
      by rewrite !lookup_insert_ne by done.
  - eexists _, _.
    split; [apply Handle_added_unknown; by apply eq_None_not_Some|]. split.
    + intros m (sink & Hl & Hmem). cbn in Hl. rewrite lookup_insert_eq in Hl.
      injection Hl as <-. by apply elem_of_empty in Hmem.
    + intros m k Hne. unfold bound_to. cbn.
      by rewrite lookup_insert_ne by done.
Qed.

(** X13: after a track-removed event the track has no texture and no
    material shows on it, and a second track-removed event for the same
    track fails on the checked lookup: two removals in a row never run to
    completion, in the [Handle] variant and with the inline handlers. *)
Theorem track_removed_once (VideoTrack : FDolbyIOVideoTrack) :
  (∀ (s s' : Video.UDolbyIOSubsystem) log,
     Video.Handle_remote_video_track_removed VideoTrack s = Some (tt, s', log) →
     Video.GetTexture (TrackID VideoTrack) s' = None ∧
     (∀ Material, ¬ bound_to s' Material (TrackID VideoTrack)) ∧
     Video.Handle_remote_video_track_removed VideoTrack s' = None) ∧
  (∀ s : Video.UDolbyIOSubsystem,
     Video.run [Video.video_track_removed_ev VideoTrack;
                Video.video_track_removed_ev VideoTrack] s = None) ∧
  (∀ s : Inline.UDolbyIOSubsystem,
     Inline.run [Inline.video_track_removed_ev VideoTrack;
                 Inline.video_track_removed_ev VideoTrack] s = None).
Proof.
  split; [|split].
  - intros s s' log Hrun.
    destruct (Video.VideoSinks s !! TrackID VideoTrack) as [sink|] eqn:Hsink;
      [|by rewrite Handle_removed_None in Hrun].
    erewrite Handle_removed_Some in Hrun by done. simplify_eq.
    assert (Hgone : Video.VideoSinks
                      (Video.set_VideoSinks (delete (TrackID VideoTrack)) s)
                      !! TrackID VideoTrack = None)
      by (cbn; apply lookup_delete_eq).
    split; [|split].
    + unfold Video.GetTexture. by rewrite Hgone.
    + intros m (sink' & Hl & _). by rewrite Hgone in Hl.
    + by apply Handle_removed_None.
  - intros s. rewrite !video_run_cons. cbn [Video.dispatch].
    destruct (Video.VideoSinks s !! TrackID VideoTrack) as [sink|] eqn:Hsink.
    + erewrite op_bind_Some by (by eapply Handle_removed_Some).
      unfold mbind at 1, Op_bind at 1.
      rewrite Handle_removed_None; [done|]. cbn. apply lookup_delete_eq.
    + unfold mbind, Op_bind. by rewrite Handle_removed_None.
  - intros s. rewrite !inline_run_cons. cbn [Inline.dispatch].
    destruct (Inline.VideoSinks s !! TrackID VideoTrack) as [sink|] eqn:Hsink.
    + erewrite op_bind_Some by (by eapply inline_removed_Some).
      unfold mbind at 1, Op_bind at 1.
      rewrite inline_removed_None; [done|]. cbn. apply lookup_delete_eq.
    + unfold mbind, Op_bind. by rewrite inline_removed_None.
Qed.

Lemma track_added_starts_unbound_witness :
  bound_to two_sinks 7 "v1" ∧
  ∃ s' log,
    Video.Handle_remote_video_track_added v1_p1 two_sinks = Some (tt, s', log) ∧
    ¬ bound_to s' 7 "v1".
Proof.
  split.
  - exists (FVideoSink_BindMaterial 7 (FVideoSink_new "v1")).
    split; [vm_compute; reflexivity|]. cbn.
    by apply elem_of_union_l, elem_of_singleton.
  - destruct (track_added_starts_unbound two_sinks v1_p1) as (s' & log & Hrun & Hno & _).
    exists s', log. split; [exact Hrun|]. apply (Hno 7).
Defined.

Lemma track_removed_once_witness :
  ∃ s' log,
    Video.Handle_remote_video_track_removed v1_p1 two_sinks = Some (tt, s', log) ∧
    Video.Handle_remote_video_track_removed v1_p1 s' = None.
Proof.
  eexists _, _. split; [vm_compute; reflexivity|].
  eapply (proj1 (track_removed_once v1_p1) two_sinks). vm_compute. reflexivity.
Defined.

Lemma UnbindMaterial_bindings_witness :
  bound_to two_sinks 7 "v1" ∧
  bound_to (Video.UnbindMaterial 7 "v2" two_sinks) 7 "v1" ∧
  ¬ bound_to (Video.UnbindMaterial 7 "v1" two_sinks) 7 "v1".
Proof.
  assert (Hv1 : bound_to two_sinks 7 "v1").
  { exists (FVideoSink_BindMaterial 7 (FVideoSink_new "v1")).
    split; [vm_compute; reflexivity|]. cbn.
    by apply elem_of_union_l, elem_of_singleton. }
  split; [exact Hv1|]. split.
  - apply (proj2 (UnbindMaterial_bindings two_sinks 7 7 "v2" "v1")).
    split; [exact Hv1|]. by intros [_ ?].
  - intros Hb. apply (UnbindMaterial_bindings two_sinks 7 7 "v1" "v1") in Hb as [_ Hnot].
    by apply Hnot.
Defined.

(** ** The drain, and the enabled tracks of one event *)

(** X14: a drain that ran to completion leaves nothing to drain: running
    [ProcessBufferedVideoTracks] again for the same participant broadcasts
    nothing and changes nothing. *)
Theorem ProcessBufferedVideoTracks_again
    (ParticipantID : string) (s s' : Video.UDolbyIOSubsystem)
    (log : list Notification) :
  Video.ProcessBufferedVideoTracks ParticipantID s = Some (tt, s', log) →
  Video.BufferedAddedVideoTracks s' !! ParticipantID = None ∧
  Video.ProcessBufferedVideoTracks ParticipantID s' = Some (tt, s', []).
Proof.
  intros Hrun.
  assert (Hnone : Video.BufferedAddedVideoTracks s' !! ParticipantID = None).
  { unfold Video.ProcessBufferedVideoTracks in Hrun.
    apply op_bind_inv in Hrun as (sa & sb & la & lb & Hget & Hrun & ->).
    op_inv Hget.
    destruct (Video.BufferedAddedVideoTracks sb !! ParticipantID) as [l|] eqn:E.
    - apply op_bind_inv in Hrun as ([] & sd & le & lf & Hloop & Hmod & ->).
      op_inv Hmod. cbn. apply lookup_delete_eq.
    - by op_inv Hrun. }
  split; [exact Hnone|]. by apply ProcessBufferedVideoTracks_nothing.
Qed.

Lemma ProcessBufferedVideoTracks_again_witness :
  ∃ s' log,
    Video.ProcessBufferedVideoTracks "p1" video_two_buffered = Some (tt, s', log) ∧
    added_of log = [v1_p1; v2_p1] ∧
    Video.ProcessBufferedVideoTracks "p1" s' = Some (tt, s', []).
Proof.
  eexists _, _. split; [vm_compute; reflexivity|]. split; [reflexivity|].
  refine (proj2 (ProcessBufferedVideoTracks_again "p1" video_two_buffered _ _ _)).
  vm_compute. reflexivity.
Defined.

Section enabled_partition.
Implicit Types (s : Video.UDolbyIOSubsystem) (t : FDolbyIOVideoTrack).

Lemma GetTexture_set_BufferedEnabled f s k :
  Video.GetTexture k (Video.set_BufferedEnabledVideoTracks f s) = Video.GetTexture k s.
Proof. done. Qed.





End enabled_partition.


(** ** [FSdkAccess] over a whole run *)

Section sdk_access_runs.
Import SdkAccess.
Implicit Types (s : FSdkAccess) (c : Command).

Lemma exec_sdk_present c s :
  coherent s → sdk_present s → sdk_present (after (exec c s)).
Proof.
  unfold coherent, sdk_present.
  destruct s as [sdk st demo handlers fl].
  intros [[? [?|?]]|[[[?|?] ?]|[? ?]]] Hsdk; simplify_eq/=;
    destruct c as [created|Conf User| | | | | |user_id]; cbn;
    unfold Connect, ConnectToDemoConference, Disconnect, MuteInput, MuteOutput,
      UpdateViewPoint, IsConnected, IsDisconnected; cbn;
    repeat (case_bool_decide || destruct sdk || cbn); naive_solver.
Qed.

Lemma run_sdk_present cs : sdk_present (run cs constructed).
Proof.
  induction cs as [|c cs IH] using rev_ind; [by intros []|].
  unfold run. rewrite foldl_snoc. apply exec_sdk_present; [apply run_coherent|done].
Qed.

Lemma calls_need_status c s :
  calls (exec c s) ≠ [] →
  Sdk s = true ∨ Status s = Connected.
Proof.
  destruct c as [created|Conf User| | | | | |user_id]; cbn;
    unfold Connect, Disconnect, MuteInput, MuteOutput, UpdateViewPoint, complete,
      IsConnected; cbn.
  - done.
  - destruct (Sdk s); cbn; [by left|done].
  - case_bool_decide; cbn; [by right|done].
  - case_bool_decide; cbn; [by right|done].
  - case_bool_decide; cbn; [by right|done].
  - case_bool_decide; cbn; [by right|done].
  - destruct (InFlight s) as [|[] ?]; done.
  - done.
Qed.

End sdk_access_runs.

(** X16: no call goes to an SDK that is not there. From the constructed
    object on, whatever is called and whenever the SDK completes a chain,
    a command that issues SDK calls finds the SDK pointer set: the status
    guards of [Disconnect], [MuteInput], [MuteOutput] and [UpdateViewPoint]
    are enough to protect their [Sdk->] dereferences. *)
Theorem sdk_calls_find_sdk (cs : list SdkAccess.Command) (c : SdkAccess.Command) :
  SdkAccess.calls (SdkAccess.exec c (SdkAccess.run cs SdkAccess.constructed)) ≠ [] →
  SdkAccess.Sdk (SdkAccess.run cs SdkAccess.constructed) = true.
Proof.
  intros [Hsdk|Hst]%calls_need_status; [done|].
  apply run_sdk_present. by rewrite Hst.
Qed.

Lemma sdk_calls_find_sdk_witness :
  let cs := [SdkAccess.cmd_Initialize true;
             SdkAccess.cmd_Connect "unreal" "unreal";
             SdkAccess.sdk_completes] in
  SdkAccess.calls (SdkAccess.exec (SdkAccess.cmd_MuteInput true)
                     (SdkAccess.run cs SdkAccess.constructed))
    = [SdkAccess.conference_mute true] ∧
  SdkAccess.Sdk (SdkAccess.run cs SdkAccess.constructed) = true.
Proof.
  cbv zeta. split; [reflexivity|].
  apply (sdk_calls_find_sdk _ (SdkAccess.cmd_MuteInput true)). done.
Defined.

(** X17: at most one chain of SDK calls is in flight at any time: the
    guards refuse [Connect] and [Disconnect] while an earlier one has not
    completed. *)
Theorem one_chain_in_flight (cs : list SdkAccess.Command) :
  length (SdkAccess.InFlight (SdkAccess.run cs SdkAccess.constructed)) ≤ 1.
Proof.
  destruct (run_coherent cs) as [[-> _]|[[[->| ->] _]|[-> _]]]; cbn; lia.
Qed.



(** ** The token and its refresh callback *)

Lemma Token_step_budget st s :
  length (Token.refreshed (Token.step st s).2) + Token.pending (Token.step st s).1
  ≤ Token.requests [st] + Token.pending s.
Proof.
  destruct st as [Token|created|], s as [sdk cb]; cbn.
  - unfold Token.SetToken, Token.requests, Token.pending.
    destruct sdk, cb; cbn; lia.
  - unfold Token.requests, Token.pending.
    destruct created, cb; cbn; case_decide; simplify_eq; cbn; lia.
  - unfold Token.requests, Token.pending. cbn.
    destruct cb; case_decide; try done; cbn; lia.
Qed.

Lemma Token_run_cons st steps s :
  Token.run (st :: steps) s =
  ((Token.run steps (Token.step st s).1).1,
   (Token.step st s).2 ++ (Token.run steps (Token.step st s).1).2).
Proof.
  cbn. destruct (Token.step st s) as [s1 l1]. cbn.
  destruct (Token.run steps s1) as [s2 l2]. reflexivity.
Qed.

Lemma Token_refreshed_app l1 l2 :
  Token.refreshed (l1 ++ l2) = Token.refreshed l1 ++ Token.refreshed l2.
Proof. unfold Token.refreshed. apply omap_app. Qed.

Lemma Token_requests_cons st steps :
  Token.requests (st :: steps) = Token.requests [st] + Token.requests steps.
Proof.
  unfold Token.requests. rewrite !filter_cons, filter_nil.
  destruct (decide (st = Token.sdk_requests_token)); reflexivity.
Qed.

(** X19: However calls of [SetToken], runs of the [Initialize(Token)] task
    and token requests of the SDK interleave, the refresh callback is
    called at most once per request: the calls made, plus the callback
    still held at the end, never exceed the requests, plus the callback
    held at the start. *)
Theorem refresh_callback_called_once_per_request steps s :
  length (Token.refreshed (Token.run steps s).2) + Token.pending (Token.run steps s).1
  ≤ Token.requests steps + Token.pending s.
Proof.
  revert s. induction steps as [|st steps IH]; intros s.
  - cbn. lia.
  - rewrite Token_run_cons, Token_requests_cons. cbn [fst snd].
    rewrite Token_refreshed_app, length_app.
    pose proof (Token_step_budget st s) as Hst.
    pose proof (IH (Token.step st s).1) as Hrest.
    lia.
Qed.

(** ** Loading and unloading the SDK libraries *)

Lemma ShutdownModule_snoc fuel Dlls Dll :
  DolbyIOModule.ShutdownModule (S fuel) (Dlls ++ [Dll]) =
  match DolbyIOModule.ShutdownModule fuel Dlls with
  | Some (freed, rest) => Some (Dll :: freed, rest)
  | None => None
  end.
Proof.
  destruct (Dlls ++ [Dll]) as [|d l] eqn:E.
  { destruct Dlls; discriminate. }
  cbn [DolbyIOModule.ShutdownModule]. rewrite <- E.
  rewrite last_snoc, removelast_last. reflexivity.
Qed.

Lemma ShutdownModule_fuel Dlls fuel :
  length Dlls ≤ fuel →
  DolbyIOModule.ShutdownModule fuel Dlls = Some (reverse Dlls, []).
Proof.
  revert fuel. induction Dlls as [|Dll Dlls IH] using rev_ind; intros fuel Hf.
  - destruct fuel; reflexivity.
  - rewrite length_app in Hf. cbn in Hf.
    destruct fuel as [|fuel]; [lia|].
    rewrite ShutdownModule_snoc, IH by lia.
    rewrite reverse_snoc. reflexivity.
Qed.

Lemma ShutdownModule_short Dlls fuel :
  fuel < length Dlls →
  DolbyIOModule.ShutdownModule fuel Dlls = None.
Proof.
  revert fuel. induction Dlls as [|Dll Dlls IH] using rev_ind; intros fuel Hf.
  - cbn in Hf. lia.
  - rewrite length_app in Hf. cbn in Hf.
    destruct fuel as [|fuel].
    + destruct Dlls; reflexivity.
    + rewrite ShutdownModule_snoc, IH by lia. reflexivity.
Qed.

(** X20: [ShutdownModule] ends after exactly as many turns as there are
    loaded libraries: it frees every library, the last loaded first, and
    leaves [Dlls] empty; with fewer turns the loop is still running. *)
Theorem ShutdownModule_unloads_in_reverse Dlls fuel :
  DolbyIOModule.ShutdownModule fuel Dlls =
  if decide (length Dlls ≤ fuel) then Some (reverse Dlls, []) else None.
Proof.
  destruct (decide (length Dlls ≤ fuel)).
  - apply ShutdownModule_fuel. assumption.
  - apply ShutdownModule_short. lia.
Qed.

Section loading.

Variable GetDllHandle : string → option DolbyIOModule.FDllHandle.

Lemma LoadDlls_Some BaseDir names Dlls Dlls' :
  DolbyIOModule.LoadDlls GetDllHandle BaseDir names Dlls = Some Dlls' →
  ∃ new, Dlls' = Dlls ++ new ∧ DolbyIOModule.Name <$> new = names ∧
         Forall (DolbyIOModule.loaded_from GetDllHandle BaseDir) new.
Proof.
  revert Dlls. induction names as [|Dll names IH]; intros Dlls H.
  - cbn in H. simplify_eq. exists []. rewrite app_nil_r. repeat split. constructor.
  - cbn in H. unfold DolbyIOModule.LoadDll in H.
    destruct (GetDllHandle (DolbyIOModule.Combine BaseDir Dll)) as [h|] eqn:Eh; [|discriminate].
    apply IH in H as (new & -> & Hn & Hl).
    exists ({| DolbyIOModule.Handle := h; DolbyIOModule.Name := Dll |} :: new).
    rewrite <- app_assoc. cbn. rewrite Hn. repeat split.
    constructor; [exact Eh|exact Hl].
Qed.

Lemma LoadDlls_is_Some BaseDir names Dlls :
  is_Some (DolbyIOModule.LoadDlls GetDllHandle BaseDir names Dlls) ↔
  Forall (λ Dll, is_Some (GetDllHandle (DolbyIOModule.Combine BaseDir Dll))) names.
Proof.
  revert Dlls. induction names as [|Dll names IH]; intros Dlls.
  - cbn. split; [constructor|eauto].
  - cbn. unfold DolbyIOModule.LoadDll. rewrite Forall_cons.
    destruct (GetDllHandle (DolbyIOModule.Combine BaseDir Dll)) as [h|] eqn:Eh.
    + rewrite IH. split; [intros ?; split; eauto|intros [_ ?]; assumption].
    + split; [intros [? ?]; discriminate|intros [[? ?] _]; discriminate].
Qed.

End loading.

(** X21: [StartupModule] gets through exactly when every library of the
    platform can be loaded from the platform's directory, and stops on
    the [Fatal] log otherwise; when it gets through, [Dlls] holds one entry
    per library, in the order of the [LoadDll] calls, each with the handle
    it was loaded under. *)
Theorem StartupModule_loads_all_or_stops GetDllHandle PluginBaseDir p :
  (is_Some (DolbyIOModule.StartupModule GetDllHandle PluginBaseDir p []) ↔
   Forall (λ Dll, is_Some (GetDllHandle
             (DolbyIOModule.Combine (DolbyIOModule.library_dir PluginBaseDir p) Dll)))
          (DolbyIOModule.libraries p)) ∧
  ∀ Dlls, DolbyIOModule.StartupModule GetDllHandle PluginBaseDir p [] = Some Dlls →
    DolbyIOModule.Name <$> Dlls = DolbyIOModule.libraries p ∧
    Forall (DolbyIOModule.loaded_from GetDllHandle (DolbyIOModule.library_dir PluginBaseDir p)) Dlls.
Proof.
  split.
  - apply LoadDlls_is_Some.
  - intros Dlls H. apply LoadDlls_Some in H as (new & -> & Hn & Hl).
    cbn. split; assumption.
Qed.

Lemma StartupModule_loads_all_or_stops_witness :
  DolbyIOModule.Name <$>
    [ {| DolbyIOModule.Handle := 1; DolbyIOModule.Name := "libdolbyio_comms_media.dylib" |};
      {| DolbyIOModule.Handle := 1; DolbyIOModule.Name := "libdolbyio_comms_sdk.dylib" |};
      {| DolbyIOModule.Handle := 1; DolbyIOModule.Name := "libvideo_processor.dylib" |} ]
  = DolbyIOModule.libraries DolbyIOModule.Mac.
Proof.
  exact (proj1 (proj2 (StartupModule_loads_all_or_stops
                         (λ _, Some 1) "Plugins/DolbyIO" DolbyIOModule.Mac) _ eq_refl)).
Defined.

(** X22: what [StartupModule] loaded, [ShutdownModule] unloads: run on the
    libraries of a finished start-up, it frees the platform's libraries
    in the reverse of their loading order within as many turns as the
    platform has libraries, and nothing stays loaded. *)
Theorem Startup_then_Shutdown GetDllHandle PluginBaseDir p Dlls :
  DolbyIOModule.StartupModule GetDllHandle PluginBaseDir p [] = Some Dlls →
  ∃ freed,
    DolbyIOModule.ShutdownModule (length (DolbyIOModule.libraries p)) Dlls
      = Some (freed, []) ∧
    DolbyIOModule.Name <$> freed = reverse (DolbyIOModule.libraries p).
Proof.
  intros H. apply LoadDlls_Some in H as (new & -> & Hn & _). cbn.
  exists (reverse new). split.
  - apply ShutdownModule_fuel. rewrite <- Hn, length_fmap. done.
  - rewrite fmap_reverse, Hn. reflexivity.
Qed.

Lemma Startup_then_Shutdown_witness :
  ∃ freed,
    DolbyIOModule.ShutdownModule 3
      [ {| DolbyIOModule.Handle := 1; DolbyIOModule.Name := "libdolbyio_comms_media.dylib" |};
        {| DolbyIOModule.Handle := 1; DolbyIOModule.Name := "libdolbyio_comms_sdk.dylib" |};
        {| DolbyIOModule.Handle := 1; DolbyIOModule.Name := "libvideo_processor.dylib" |} ]
      = Some (freed, []) ∧
    DolbyIOModule.Name <$> freed =
      ["libvideo_processor.dylib"; "libdolbyio_comms_sdk.dylib";
       "libdolbyio_comms_media.dylib"].
Proof.
  exact (Startup_then_Shutdown (λ _, Some 1) "Plugins/DolbyIO" DolbyIOModule.Mac _ eq_refl).
Defined.

(** ** Devices and audio levels *)

Section device_lists.

Variables (input output : N).

Lemma GetAllDevices_turns a Devices :
  foldl (DeviceManagement.GetAllDevices_turn input output) a Devices =
  {| DeviceManagement.InitInputDevices :=
       DeviceManagement.InitInputDevices a
       ++ filter (λ d, DeviceManagement.IsInput input d) Devices;
     DeviceManagement.InitOutputDevices :=
       DeviceManagement.InitOutputDevices a
       ++ filter (λ d, DeviceManagement.IsOutput output d) Devices;
     DeviceManagement.InitInputDeviceNames :=
       DeviceManagement.InitInputDeviceNames a
       ++ (DeviceManagement.name
             <$> filter (λ d, DeviceManagement.IsInput input d) Devices);
     DeviceManagement.InitOutputDeviceNames :=
       DeviceManagement.InitOutputDeviceNames a
       ++ (DeviceManagement.name
             <$> filter (λ d, DeviceManagement.IsOutput output d) Devices) |}.
Proof.
  revert a. induction Devices as [|Device Devices IH]; intros a.
  - cbn. rewrite !app_nil_r. destruct a; reflexivity.
  - cbn [foldl]. rewrite IH. rewrite !filter_cons.
    unfold DeviceManagement.GetAllDevices_turn.
    destruct (DeviceManagement.IsInput input Device),
             (DeviceManagement.IsOutput output Device);
      cbn; rewrite <- ?app_assoc; reflexivity.
Qed.

End device_lists.

(** X23: The arrays that [GetAllDevices] hands to the input and the output
    device list: the input array holds exactly the devices with the input
    bit, the output array those with the output bit, both in the order the
    SDK listed them (a device with both bits is in both), and each name
    array gives the names of its device array position by position. *)
Theorem GetAllDevices_arrays input output Devices :
  let a := DeviceManagement.GetAllDevices input output Devices in
  DeviceManagement.InitInputDevices a
    = filter (λ d, DeviceManagement.IsInput input d) Devices ∧
  DeviceManagement.InitOutputDevices a
    = filter (λ d, DeviceManagement.IsOutput output d) Devices ∧
  (∀ i, DeviceManagement.InitInputDeviceNames a !! i
        = DeviceManagement.name <$> DeviceManagement.InitInputDevices a !! i) ∧
  (∀ i, DeviceManagement.InitOutputDeviceNames a !! i
        = DeviceManagement.name <$> DeviceManagement.InitOutputDevices a !! i).
Proof.
  cbn zeta. unfold DeviceManagement.GetAllDevices. rewrite GetAllDevices_turns. cbn.
  repeat split; intros i; apply list_lookup_fmap.
Qed.

Lemma audio_levels_loop {float} (levels : list (AudioLevels.audio_level float)) sp lv :
  foldl (λ '(ActiveSpeakers, AudioLevels) Level,
           (ActiveSpeakers ++ [AudioLevels.participant_id float Level],
            AudioLevels ++ [AudioLevels.level float Level]))
        (sp, lv) levels
  = (sp ++ (AudioLevels.participant_id float <$> levels),
     lv ++ (AudioLevels.level float <$> levels)).
Proof.
  revert sp lv. induction levels as [|Level levels IH]; intros sp lv.
  - cbn. rewrite !app_nil_r. reflexivity.
  - cbn [foldl]. rewrite IH. cbn. rewrite <- !app_assoc. reflexivity.
Qed.

(** X24: The two arrays broadcast with [OnAudioLevelsChanged] are aligned
    with the event: position [i] of the first holds the participant and
    position [i] of the second the level of the [i]-th entry of the event,
    and neither array has a position beyond the event's entries. *)
Theorem audio_levels_arrays_aligned {float} (levels : list (AudioLevels.audio_level float)) i :
  (AudioLevels.audio_levels_handler float levels).1 !! i
    = AudioLevels.participant_id float <$> levels !! i ∧
  (AudioLevels.audio_levels_handler float levels).2 !! i
    = AudioLevels.level float <$> levels !! i.
Proof.
  unfold AudioLevels.audio_levels_handler. rewrite audio_levels_loop. cbn.
  split; apply list_lookup_fmap.
Qed.
